(** * Quote image generator: model and verification

    Shallow embedding of [src/quote_generator/generate_quote_image.py].

    The script wraps a quote with Python's [textwrap] (CPython 3.11,
    [Lib/textwrap.py], class [TextWrapper] with its default options), embeds
    the wrapped text in an SVG document and, when Pillow can be imported, draws
    the same wrapped lines on a bitmap.

    Conventions of the model:
    - a Python [str] is a [list ascii]; a character is a code point below 256
      (the Latin-1 range), which covers every quote of the table;
    - a Python [int] is a [Z]; lengths and indices, which are never negative,
      are [nat];
    - a [pathlib.Path] is the [string] that [str(path)] gives; the state
      keeps the directories and the regular files apart, each under its
      path;
    - the mutable module globals, the directories, the files and the
      standard output are threaded explicitly through a [State]; a call
      returns a value or raises, and [open], [mkdir] and the calls of Pillow
      raise as the real ones do. *)

From Stdlib Require Import List Ascii String ZArith Lia Bool Arith.
From Stdlib Require Import Decimal DecimalString DecimalZ DecimalPos.
From stdpp Require Import gmap strings.
Import ListNotations.

Local Open Scope nat_scope.

(** ** Python strings *)

Abbreviation str := (list ascii).

(** A string literal of the source. *)
Definition py (s : string) : str := list_ascii_of_string s.

Definition code (c : ascii) : nat := nat_of_ascii c.

Definition in_range (lo hi : nat) (c : ascii) : bool :=
  (lo <=? code c) && (code c <=? hi).

(** [sep.join(parts)] *)
Fixpoint join (sep : str) (parts : list str) : str :=
  match parts with
  | [] => []
  | [p] => p
  | p :: ps => p ++ sep ++ join sep ps
  end.

(** [s.replace(old, new)] for a one-character [old]. *)
Fixpoint replace_char (old : ascii) (new : str) (s : str) : str :=
  match s with
  | [] => []
  | c :: s' =>
      if Ascii.eqb c old then new ++ replace_char old new s'
      else c :: replace_char old new s'
  end.

(** ** [textwrap]: character classes

    The classes of [TextWrapper.wordsep_re], on code points below 256. *)
Module textwrap.

Definition SPACE : ascii := " "%char.
Definition HYPHEN : ascii := "-"%char.
Definition TAB : ascii := "009"%char.
Definition NEWLINE : ascii := "010"%char.
Definition CR : ascii := "013"%char.

(** [_whitespace = '\t\n\x0b\x0c\r '] *)
Definition is_whitespace (c : ascii) : bool :=
  in_range 9 13 c || (code c =? 32).

(** [str.isspace] on one character, as used by [chunk.strip() == '']. *)
Definition isspace (c : ascii) : bool :=
  in_range 9 13 c || in_range 28 32 c || (code c =? 133) || (code c =? 160).

(** [\d] *)
Definition is_digit (c : ascii) : bool := in_range 48 57 c.

(** [\w] *)
Definition is_word (c : ascii) : bool :=
  in_range 48 57 c || in_range 65 90 c || (code c =? 95) || in_range 97 122 c
  || (code c =? 170) || in_range 178 179 c || (code c =? 181)
  || in_range 185 186 c || in_range 188 190 c || in_range 192 214 c
  || in_range 216 246 c || in_range 248 255 c.

(** [letter = [^\d\W]] *)
Definition is_letter (c : ascii) : bool := is_word c && negb (is_digit c).

(** [word_punct]: a [\w] character or one of the seven punctuation marks
    exclamation mark, double quote, ampersand, apostrophe, full stop, comma
    and question mark. *)
Definition is_word_punct (c : ascii) : bool :=
  is_word c || (code c =? 33) || (code c =? 34) || (code c =? 38)
  || (code c =? 39) || (code c =? 44) || (code c =? 46) || (code c =? 63).

Definition is_hyphen (c : ascii) : bool := Ascii.eqb c HYPHEN.

(** [chunk.strip() == '']: the chunk is empty or made of blanks only. *)
Definition is_blank (chunk : str) : bool := forallb isspace chunk.

(** ** [_munge_whitespace] *)

(** [text.expandtabs(tabsize)], [line_pos] being the current column. *)
Fixpoint expandtabs_from (tabsize line_pos : nat) (text : str) : str :=
  match text with
  | [] => []
  | c :: text' =>
      if Ascii.eqb c TAB then
        if 0 <? tabsize then
          let incr := tabsize - line_pos mod tabsize in
          repeat SPACE incr ++ expandtabs_from tabsize (line_pos + incr) text'
        else expandtabs_from tabsize line_pos text'
      else
        c :: expandtabs_from tabsize
               (if Ascii.eqb c NEWLINE || Ascii.eqb c CR then 0
                else S line_pos) text'
  end.

Definition expandtabs (tabsize : nat) (text : str) : str :=
  expandtabs_from tabsize 0 text.

(** [text.translate(unicode_whitespace_trans)] *)
Definition translate_whitespace (text : str) : str :=
  map (fun c => if is_whitespace c then SPACE else c) text.

(** [expand_tabs] and [replace_whitespace] are both true, [tabsize] is 8. *)
Definition _munge_whitespace (text : str) : str :=
  translate_whitespace (expandtabs 8 text).

(** ** [_split]: the matches of [wordsep_re]

    [before_rev] is the text before the current position, last character
    first (the lookbehinds read it); [rest] is the text from the current
    position on. *)

Fixpoint ws_run (rest : str) : nat :=
  match rest with
  | c :: rest' => if is_whitespace c then S (ws_run rest') else 0
  | [] => 0
  end.

Fixpoint hyphen_run (rest : str) : nat :=
  match rest with
  | c :: rest' => if is_hyphen c then S (hyphen_run rest') else 0
  | [] => 0
  end.

(** [(?<=wp)] followed by [-{2,}] and then [\w]: the condition of both
    em-dash branches. *)
Definition emdash_here (before_rev rest : str) : bool :=
  match before_rev with
  | b :: _ => is_word_punct b
  | [] => false
  end
  && (2 <=? hyphen_run rest)
  && match skipn (hyphen_run rest) rest with
     | c :: _ => is_word c
     | [] => false
     end.

(** [(?<=lt{2}-) | (?<=lt-lt-)], read just after the hyphen; [before_rev] is
    the text before that hyphen. *)
Definition hyphen_lookbehind (before_rev : str) : bool :=
  match before_rev with
  | b1 :: b2 :: tl =>
      is_letter b1
      && (is_letter b2
          || (is_hyphen b2
              && match tl with b3 :: _ => is_letter b3 | [] => false end))
  | _ => false
  end.

(** [(?= lt -? lt)] *)
Definition hyphen_lookahead (after : str) : bool :=
  match after with
  | l1 :: l2 :: tl =>
      is_letter l1
      && (is_letter l2
          || (is_hyphen l2
              && match tl with l3 :: _ => is_letter l3 | [] => false end))
  | _ => false
  end.

(** The word branch after its first character: the lazy [nws+?] takes one
    more character at a time until one of the three endings matches.  The
    result is the number of further characters of the match. *)
Fixpoint word_tail (before_rev rest : str) : nat :=
  match rest with
  | [] => 0
  | c :: rest' =>
      if is_hyphen c && hyphen_lookbehind before_rev && hyphen_lookahead rest'
      then 1
      else if is_whitespace c then 0
      else if emdash_here before_rev rest then 0
      else S (word_tail (c :: before_rev) rest')
  end.

(** Length of the match of [wordsep_re] at the current position. *)
Definition wordsep_match (before_rev rest : str) : nat :=
  match rest with
  | [] => 0
  | c :: rest' =>
      if is_whitespace c then ws_run rest
      else if emdash_here before_rev rest then hyphen_run rest
      else S (word_tail (c :: before_rev) rest')
  end.

(** [wordsep_re.split(text)] without its empty strings: a match starts at
    every position that is not the end of the text, so the matches tile the
    text and the pieces between them are all empty. *)
Fixpoint split_loop (fuel : nat) (before_rev rest : str) : list str :=
  match fuel with
  | 0 => []
  | S fuel' =>
      match rest with
      | [] => []
      | _ :: _ =>
          let n := wordsep_match before_rev rest in
          firstn n rest
            :: split_loop fuel' (rev (firstn n rest) ++ before_rev) (skipn n rest)
      end
  end.

Definition _split (text : str) : list str :=
  List.filter (fun c => negb (Nat.eqb (length c) 0))
         (split_loop (length text) [] text).

Definition _split_chunks (text : str) : list str :=
  _split (_munge_whitespace text).

(** ** [_wrap_chunks]

    The source reverses the chunk list and pops from its end; the model
    reads the same chunks from the front.  The indents are empty and
    [max_lines] is [None], so every line may use the whole [width]. *)

(** The inner [while chunks] loop: chunks are moved to the current line as
    long as they fit. *)
Fixpoint fill_line (width : nat) (cur_line : list str) (cur_len : nat)
    (chunks : list str) : list str * nat * list str :=
  match chunks with
  | [] => (cur_line, cur_len, [])
  | c :: chunks' =>
      if cur_len + length c <=? width
      then fill_line width (cur_line ++ [c]) (cur_len + length c) chunks'
      else (cur_line, cur_len, chunks)
  end.

Fixpoint rfind_from (i : nat) (s : str) : option nat :=
  match s with
  | [] => None
  | c :: s' =>
      match rfind_from (S i) s' with
      | Some j => Some j
      | None => if is_hyphen c then Some i else None
      end
  end.

(** [chunk.rfind('-', 0, stop)]; [None] stands for the result -1. *)
Definition rfind_hyphen (chunk : str) (stop : nat) : option nat :=
  rfind_from 0 (firstn stop chunk).

(** The value of [end] in [_handle_long_word]: [space_left], or the index
    after the last hyphen of [chunk[:space_left]] when that hyphen has a
    character other than a hyphen before it. *)
Definition break_point (chunk : str) (space_left : nat) : nat :=
  if space_left <? length chunk then
    match rfind_hyphen chunk space_left with
    | Some hyphen =>
        if (0 <? hyphen)
           && existsb (fun c => negb (is_hyphen c)) (firstn hyphen chunk)
        then hyphen + 1
        else space_left
    | None => space_left
    end
  else space_left.

(** [_handle_long_word] with [break_long_words] and [break_on_hyphens] set.
    It returns the chunks and the current line as it leaves them.  The
    caller has [cur_len <= width], so [width - cur_len] is not negative. *)
Definition _handle_long_word (chunks cur_line : list str)
    (cur_len width : nat) : list str * list str :=
  let space_left := if width <? 1 then 1 else width - cur_len in
  match chunks with
  | [] => (chunks, cur_line)
  | chunk :: chunks' =>
      let end_ := break_point chunk space_left in
      (skipn end_ chunk :: chunks', cur_line ++ [firstn end_ chunk])
  end.

(** [if drop_whitespace and cur_line and cur_line[-1].strip() == '':
    del cur_line[-1]] *)
Definition drop_trailing_blank (cur_line : list str) : list str :=
  match last cur_line with
  | Some chunk => if is_blank chunk then removelast cur_line else cur_line
  | None => cur_line
  end.

Definition is_nil {A} (l : list A) : bool :=
  match l with [] => true | _ :: _ => false end.

(** One pass of the outer [while chunks] loop, for a non-empty [chunks]:
    the chunks left and the lines so far. *)
Definition wrap_line (width : nat) (chunks lines : list str)
    : list str * list str :=
  let chunks1 :=
    match chunks with
    | c :: chunks' =>
        if is_blank c && negb (is_nil lines) then chunks' else chunks
    | [] => []
    end in
  let '(cur_line, cur_len, chunks2) := fill_line width [] 0 chunks1 in
  let '(chunks3, cur_line3) :=
    match chunks2 with
    | c :: _ =>
        if width <? length c
        then _handle_long_word chunks2 cur_line cur_len width
        else (chunks2, cur_line)
    | [] => (chunks2, cur_line)
    end in
  let cur_line4 := drop_trailing_blank cur_line3 in
  (chunks3,
   match cur_line4 with
   | [] => lines
   | _ :: _ => lines ++ [concat cur_line4]
   end).

Fixpoint wrap_loop (fuel width : nat) (chunks lines : list str) : list str :=
  match fuel with
  | 0 => lines
  | S fuel' =>
      match chunks with
      | [] => lines
      | _ :: _ =>
          let '(chunks', lines') := wrap_line width chunks lines in
          wrap_loop fuel' width chunks' lines'
      end
  end.

(** Every pass removes a chunk or at least one character of a chunk, so this
    many passes are enough (lemma [wrap_loop_unfold] below). *)
Definition chunks_measure (chunks : list str) : nat :=
  fold_right (fun c n => S (length c) + n) 0 chunks.

(** [_wrap_chunks] for a positive [width] (both callers pass 32; the source
    raises [ValueError] for a width below 1). *)
Definition _wrap_chunks (width : nat) (chunks : list str) : list str :=
  wrap_loop (chunks_measure chunks) width chunks [].

(** [textwrap.wrap(text, width=width)] *)
Definition wrap (text : str) (width : nat) : list str :=
  _wrap_chunks width (_split_chunks text).

(** [textwrap.fill(text, width=width)] *)
Definition fill (text : str) (width : nat) : str :=
  join [NEWLINE] (wrap text width).

End textwrap.

(** ** Values of the program *)

Definition dq : str := ["034"%char].
Definition nl : str := [textwrap.NEWLINE].

(** A double-quoted attribute value of the markup. *)
Definition q (s : string) : str := dq ++ py s ++ dq.

(** [a // b] on [int]: the quotient rounded towards minus infinity. *)
Definition floordiv (a b : Z) : Z := Z.div a b.
Infix "//" := floordiv (at level 40, left associativity).

(** [str(n)] for an [int], as an f-string field prints it. *)
Definition str_of_int (n : Z) : str :=
  py (DecimalString.NilZero.string_of_int (Z.to_int n)).

Inductive exn : Type :=
| IndexError
| OtherException (name : string)
| FileNotFoundError
| FileExistsError
| IsADirectoryError
| NotADirectoryError.

Inductive outcome (A : Type) : Type :=
| Returned (a : A)
| Raised (e : exn).
Arguments Returned {A} a.
Arguments Raised {A} e.

(** The imaging library (Pillow), as far as the script uses it.  A font is
    loaded from a path at a size or the load raises; the built-in font is
    always there; [textbbox font text] is
    [draw.textbbox((0, 0), text, font=font)], the tuple (left, top, right,
    bottom).
    The font files and the text metrics belong to the environment and do not
    change during a run; the metrics are taken to be defined for every font
    the selection can return and every line of text.

    Which canvas sizes, boxes and file names the library refuses depends on
    its version and on the machine, so the library says it itself:
    [new_raises mode size] is the exception [Image.new(mode, size, color)]
    raises, if any (a negative or too large size);
    [rectangle_raises size box] is the exception [draw.rectangle(box, fill)]
    raises on an image of that size, if any (a box whose second corner is
    before the first); [save_raises path size] is the exception
    [img.save(path)] raises for an image of that size before it opens the
    file, if any (no format known for the extension of the path). *)
Class Imaging : Type := {
  Font : Type;
  truetype : string -> Z -> outcome Font;
  load_default : Font;
  textbbox : Font -> str -> Z * Z * Z * Z;
  new_raises : string -> Z * Z -> option exn;
  rectangle_raises : Z * Z -> list Z -> option exn;
  save_raises : string -> Z * Z -> option exn
}.

Definition rgb : Type := Z * Z * Z.

(** ** Paths

    A [pathlib.Path] is kept as the string [str(path)] gives.  The paths of
    the script are [Path(__file__).resolve().parent] and what [/] makes of
    it; [joinpath] parses both of its texts as [PurePosixPath] does, so that
    it is right for texts that are not normalised too. *)
Module posix.

Definition SLASH : ascii := "/"%char.

Definition DOT : ascii := "."%char.

Definition is_slash (c : ascii) : bool := Ascii.eqb c SLASH.

Fixpoint drop_while (f : ascii -> bool) (s : str) : str :=
  match s with
  | c :: s' => if f c then drop_while f s' else s
  | [] => []
  end.

(** [posixpath.dirname]: the text up to the last slash, without its
    trailing slashes unless it is made of slashes only. *)
Definition dirname_chars (p : str) : str :=
  let head := rev (drop_while (fun c => negb (is_slash c)) (rev p)) in
  if forallb is_slash head then head
  else rev (drop_while is_slash (rev head)).

(** What stands between the slashes of a path text. *)
Fixpoint components (s : str) : list str :=
  match s with
  | [] => [[]]
  | c :: s' =>
      if is_slash c then [] :: components s'
      else
        match components s' with
        | p :: ps => (c :: p) :: ps
        | [] => [[c]]
        end
  end.

(** A component pathlib keeps: not empty and not made of one dot. *)
Definition is_part (p : str) : bool :=
  match p with
  | [] => false
  | [c] => negb (Ascii.eqb c DOT)
  | _ => true
  end.

(** The parts of a path text. *)
Definition parts (s : str) : list str := List.filter is_part (components s).

(** The root of a path text: none for a relative path; exactly two leading
    slashes are kept, any other number is one slash. *)
Definition root_of (s : str) : str :=
  match s with
  | c1 :: s1 =>
      if is_slash c1 then
        match s1 with
        | c2 :: s2 =>
            if is_slash c2
               && match s2 with c3 :: _ => negb (is_slash c3) | [] => true end
            then [SLASH; SLASH]
            else [SLASH]
        | [] => [SLASH]
        end
      else []
  | [] => []
  end.

(** [str(path)] for a path with this root and these parts; the path with
    neither is written as one dot. *)
Definition render (root : str) (ps : list str) : str :=
  match root, ps with
  | [], [] => [DOT]
  | _, _ => root ++ join [SLASH] ps
  end.

(** [str(PurePosixPath(d) / name)]: both texts are parsed, and a [name]
    with a root replaces [d]. *)
Definition joinpath_chars (d name : str) : str :=
  match root_of name with
  | [] => render (root_of d) (parts d ++ parts name)
  | root => render root (parts name)
  end.

Definition dirname (p : string) : string :=
  string_of_list_ascii (dirname_chars (list_ascii_of_string p)).

Definition joinpath (d name : string) : string :=
  string_of_list_ascii
    (joinpath_chars (list_ascii_of_string d) (list_ascii_of_string name)).

End posix.

Section Program.

Context `{PIL : Imaging}.

(** What [ImageDraw] has painted on a canvas, in order. *)
Inductive DrawOp : Type :=
| Rectangle (box : list Z) (fill : rgb)
| Text (xy : Z * Z) (text : str) (font : Font) (fill : rgb).

(** A Pillow image: mode, size, background colour and the drawing
    operations applied so far, oldest first. *)
Record Image : Type := {
  im_mode : string;
  im_size : Z * Z;
  im_color : rgb;
  im_ops : list DrawOp
}.

Inductive File : Type :=
| TextFile (content : str)
| ImageFile (img : Image).

(** The state a run can read or change: the two module globals, the
    directories and files, and what was printed.  [dirs] holds the paths
    that name a directory and [files] the regular files with their contents,
    each under the string the program uses for it; links, permissions and
    two strings naming the same file are outside the model. *)
Record State : Type := {
  g_PIL_AVAILABLE : bool;
  g_QUOTES : list str;
  dirs : gset string;
  files : gmap string File;
  stdout : list str
}.

(** *** State and exception monad *)

Definition M (A : Type) : Type := State -> outcome A * State.

Definition ret {A} (a : A) : M A := fun st => (Returned a, st).

Definition raise {A} (e : exn) : M A := fun st => (Raised e, st).

Definition bind {A B} (m : M A) (k : A -> M B) : M B :=
  fun st =>
    match m st with
    | (Returned a, st') => k a st'
    | (Raised e, st') => (Raised e, st')
    end.

Definition lift {A} (o : outcome A) : M A := fun st => (o, st).

(** [try: body  except Exception: handler] *)
Definition try_except {A} (body handler : M A) : M A :=
  fun st =>
    match body st with
    | (Returned a, st') => (Returned a, st')
    | (Raised _, st') => handler st'
    end.

Definition get : M State := fun st => (Returned st, st).

Definition modify (f : State -> State) : M unit :=
  fun st => (Returned tt, f st).

Notation "x <- m ;; k" := (bind m (fun x => k))
  (at level 100, m at level 99, k at level 200, right associativity).
Notation "m ;;; k" := (bind m (fun _ => k))
  (at level 100, k at level 200, right associativity).

Definition set_file (path : string) (f : File) (st : State) : State :=
  {| g_PIL_AVAILABLE := g_PIL_AVAILABLE st; g_QUOTES := g_QUOTES st;
     dirs := dirs st; files := <[path := f]> (files st);
     stdout := stdout st |}.

Definition add_dir (path : string) (st : State) : State :=
  {| g_PIL_AVAILABLE := g_PIL_AVAILABLE st; g_QUOTES := g_QUOTES st;
     dirs := {[path]} ∪ dirs st; files := files st;
     stdout := stdout st |}.

Definition add_output (line : str) (st : State) : State :=
  {| g_PIL_AVAILABLE := g_PIL_AVAILABLE st; g_QUOTES := g_QUOTES st;
     dirs := dirs st; files := files st;
     stdout := stdout st ++ [line] |}.

Definition print (line : str) : M unit := modify (add_output line).

(** *** Files and directories *)

(** [open(path, 'w')] as far as it can fail: the path is a directory, or
    the directory it lies in is missing or is a regular file. *)
Definition open_for_writing (path : string) : M unit :=
  fun st =>
    if decide (path ∈ dirs st) then (Raised IsADirectoryError, st)
    else if decide (posix.dirname path ∈ dirs st) then (Returned tt, st)
    else
      match files st !! posix.dirname path with
      | Some _ => (Raised NotADirectoryError, st)
      | None => (Raised FileNotFoundError, st)
      end.

(** Create or replace the regular file at [path]. *)
Definition write_file (path : string) (f : File) : M unit :=
  open_for_writing path ;;; modify (set_file path f).

(** [path.mkdir(exist_ok=True)]: nothing to do for a directory that
    exists; [FileExistsError] for a regular file of that name; otherwise
    the directory above must exist. *)
Definition mkdir_exist_ok (path : string) : M unit :=
  fun st =>
    if decide (path ∈ dirs st) then (Returned tt, st)
    else
      match files st !! path with
      | Some _ => (Raised FileExistsError, st)
      | None =>
          if decide (posix.dirname path ∈ dirs st)
          then (Returned tt, add_dir path st)
          else
            match files st !! posix.dirname path with
            | Some _ => (Raised NotADirectoryError, st)
            | None => (Raised FileNotFoundError, st)
            end
      end.

(** [seq[i]] *)
Definition index {A} (seq : list A) (i : nat) : M A :=
  match seq !! i with
  | Some x => ret x
  | None => raise IndexError
  end.

(** [random.choice(seq)]: [seq[_randbelow(len(seq))]], or [IndexError] on an
    empty sequence.  [r] stands for what the generator draws.  The index
    that comes out of it is a number below [len(seq)], taken here to be
    [r mod len(seq)]; CPython draws bits and draws again until the value is
    below the length, and which index comes out of which bits is not the
    concern of the model. *)
Definition random_choice {A} (r : nat) (seq : list A) : M A :=
  match seq with
  | [] => raise IndexError
  | _ :: _ => index seq (r mod length seq)
  end.

(** *** The script *)

Definition QUOTES : list str := [
  py "The only limit to our realization of tomorrow is our doubts of today.";
  py "Do something today that your future self will thank you for.";
  py "Small steps every day lead to big changes over time.";
  py "Believe you can and you're halfway there.";
  py "Progress, not perfection.";
  py "Start where you are. Use what you have. Do what you can.";
  py "Your only limit is you.";
  py "Dream big. Start small. Act now.";
  py "Consistency compounds into results.";
  py "Be stronger than your excuses."
].

(** The module body: [PIL_AVAILABLE] records whether the three imports of
    Pillow went through, [QUOTES] is bound to the table. *)
Definition module_init (pil_imported : bool) (ds : gset string)
    (fs : gmap string File) : State :=
  {| g_PIL_AVAILABLE := pil_imported; g_QUOTES := QUOTES;
     dirs := ds; files := fs; stdout := [] |}.

Definition pick_quote (r : nat) : M str :=
  st <- get ;; random_choice r (g_QUOTES st).

Definition max_chars : nat := 32.

Definition BR : str := py "<br/>".

(** The text placed inside the inner [div]:
    [wrapped.replace('\n', '<br/>')]. *)
Definition svg_wrapped (quote : str) : str :=
  replace_char textwrap.NEWLINE BR (textwrap.fill quote max_chars).

(** The lines of the markup before the wrapped text. *)
Definition svg_xml_decl : str :=
  py "<?xml version=" ++ q "1.0" ++ py " encoding=" ++ q "UTF-8" ++ py "?>".

Definition svg_open (size : Z) : str :=
  py "<svg xmlns=" ++ q "http://www.w3.org/2000/svg"
  ++ py " width=" ++ dq ++ str_of_int size ++ py "px" ++ dq
  ++ py " height=" ++ dq ++ str_of_int size ++ py "px" ++ dq
  ++ py " viewBox=" ++ dq ++ py "0 0 " ++ str_of_int size ++ py " "
  ++ str_of_int size ++ dq ++ py ">".

Definition svg_background : str :=
  py "  <rect width=" ++ q "100%" ++ py " height=" ++ q "100%"
  ++ py " fill=" ++ q "#0f172a" ++ py " />".

Definition svg_panel (size : Z) : str :=
  py "  <rect x=" ++ q "40" ++ py " y=" ++ q "40"
  ++ py " width=" ++ dq ++ str_of_int (size - 80) ++ dq
  ++ py " height=" ++ dq ++ str_of_int (size - 80) ++ dq
  ++ py " rx=" ++ q "40" ++ py " ry=" ++ q "40"
  ++ py " fill=" ++ q "#0b1220" ++ py " opacity=" ++ q "0.9" ++ py " />".

Definition svg_group_open : str :=
  py "  <g fill=" ++ q "#ffffff" ++ py " font-family="
  ++ q "-apple-system, BlinkMacSystemFont, 'Segoe UI', Roboto, 'Helvetica Neue', Arial"
  ++ py " font-size=" ++ q "48" ++ py ">".

Definition svg_foreign_open (size : Z) : str :=
  py "    <foreignObject x=" ++ q "80" ++ py " y=" ++ q "120"
  ++ py " width=" ++ dq ++ str_of_int (size - 160) ++ dq
  ++ py " height=" ++ dq ++ str_of_int (size - 240) ++ dq ++ py ">".

Definition svg_body_open : str :=
  py "      <body xmlns=" ++ q "http://www.w3.org/1999/xhtml"
  ++ py " style=" ++ q "margin:0;" ++ py ">".

Definition svg_flex_open : str :=
  py "        <div style="
  ++ q "font-size:48px; line-height:1.15; color:#ffffff; display:flex; align-items:center; justify-content:center; height:100%; text-align:center;"
  ++ py ">".

(** The markup before the wrapped text. *)
Definition svg_head (size : Z) : str :=
  svg_xml_decl ++ nl
  ++ svg_open size ++ nl
  ++ svg_background ++ nl
  ++ svg_panel size ++ nl
  ++ svg_group_open ++ nl
  ++ svg_foreign_open size ++ nl
  ++ svg_body_open ++ nl
  ++ svg_flex_open ++ nl
  ++ py "          <div>".

(** The markup after the wrapped text. *)
Definition svg_tail : str :=
  py "</div>" ++ nl
  ++ py "        </div>" ++ nl
  ++ py "      </body>" ++ nl
  ++ py "    </foreignObject>" ++ nl
  ++ py "  </g>" ++ nl
  ++ py "</svg>" ++ nl.

Definition make_svg_text_block (quote : str) (size : Z) : str :=
  svg_head size ++ svg_wrapped quote ++ svg_tail.

(** [out_path.write_text(svg, encoding='utf-8')] *)
Definition save_svg (svg : str) (out_path : string) : M unit :=
  write_file out_path (TextFile svg).

Definition possible_fonts : list string := [
  "/Library/Fonts/Arial Unicode.ttf";
  "/Library/Fonts/Arial.ttf";
  "/System/Library/Fonts/SFNNSF-Regular.otf"
]%string.

(** The [for p in possible_fonts] loop: the value of [font] when the loop
    is left, [None] when no candidate loaded. *)
Fixpoint try_fonts (candidates : list string) : M (option Font) :=
  match candidates with
  | [] => ret None
  | p :: candidates' =>
      font <- try_except (f <- lift (truetype p 48) ;; ret (Some f))
                         (ret None) ;;
      match font with
      | Some f => ret (Some f)
      | None => try_fonts candidates'
      end
  end.

(** Font selection: the loop, then [if font is None: font =
    ImageFont.load_default()]. *)
Definition select_font (candidates : list string) : M Font :=
  font <- try_fonts candidates ;;
  match font with
  | Some f => ret f
  | None => ret load_default
  end.

Definition draw_op (op : DrawOp) (img : Image) : Image :=
  {| im_mode := im_mode img; im_size := im_size img;
     im_color := im_color img; im_ops := im_ops img ++ [op] |}.

(** [Image.new(mode, size, color)] *)
Definition Image_new (mode : string) (size : Z * Z) (color : rgb) : M Image :=
  match new_raises mode size with
  | Some e => raise e
  | None =>
      ret {| im_mode := mode; im_size := size; im_color := color;
             im_ops := [] |}
  end.

(** [draw.rectangle(box, fill=fill)] *)
Definition draw_rectangle (box : list Z) (fill : rgb) (img : Image)
    : M Image :=
  match rectangle_raises (im_size img) box with
  | Some e => raise e
  | None => ret (draw_op (Rectangle box fill) img)
  end.

(** [img.save(path)]: the format is found from the extension, then the
    file is opened and written. *)
Definition Image_save (img : Image) (path : string) : M unit :=
  match save_raises path (im_size img) with
  | Some e => raise e
  | None => write_file path (ImageFile img)
  end.

(** The [for line in lines] loop. *)
Fixpoint draw_lines (font : Font) (size : Z) (lines : list str) (y : Z)
    (img : Image) : Image :=
  match lines with
  | [] => img
  | line :: lines' =>
      let '(bbox0, bbox1, bbox2, bbox3) := textbbox font line in
      let w := (bbox2 - bbox0)%Z in
      let h := (bbox3 - bbox1)%Z in
      let x := (size - w) // 2 in
      draw_lines font size lines' (y + (h + 6))%Z
        (draw_op (Text (x, y) line font (255, 255, 255)%Z) img)
  end.

Definition rasterize_svg_to_png (svg_path png_path : string) (size : Z)
    (quote : option str) : M bool :=
  st <- get ;;
  if negb (g_PIL_AVAILABLE st) then ret false
  else
    img <- Image_new "RGB" (size, size) (15, 23, 42)%Z ;;
    font <- select_font possible_fonts ;;
    let margin := 40%Z in
    let inner_color := (11, 18, 32)%Z in
    img <- draw_rectangle [margin; margin; size - margin; size - margin]%Z
                          inner_color img ;;
    text <- match quote with
            | Some quote => ret quote
            | None => st <- get ;; index (g_QUOTES st) 0
            end ;;
    let lines := textwrap.wrap text max_chars in
    let '(_, bbox1, _, bbox3) := textbbox font (py "A") in
    let line_h := (bbox3 - bbox1)%Z in
    let total_h :=
      (line_h * Z.of_nat (length lines)
       + (Z.of_nat (length lines) - 1) * 6)%Z in
    let y := (size - total_h) // 2 in
    let img := draw_lines font size lines y img in
    Image_save img png_path ;;;
    ret true.

(** [base] is [str(Path(__file__).resolve().parent)], the directory of
    the script; [r] the value drawn by the random generator and [ts] the
    clock reading formatted by [strftime('%Y%m%d-%H%M%S')]. *)
Definition main (base : string) (r : nat) (ts : string) : M unit :=
  let out_dir := posix.joinpath base "outputs" in
  mkdir_exist_ok out_dir ;;;
  quote <- pick_quote r ;;
  let size := 1080%Z in
  let svg := make_svg_text_block quote size in
  let svg_name := ("quote-" +:+ ts +:+ ".svg")%string in
  let svg_path := posix.joinpath out_dir svg_name in
  save_svg svg svg_path ;;;
  print (py "Saved SVG to: " ++ py svg_path) ;;;
  let png_path :=
    posix.joinpath out_dir ("quote-" +:+ ts +:+ ".png")%string in
  rasterized <- rasterize_svg_to_png svg_path png_path size (Some quote) ;;
  if rasterized then print (py "Saved PNG to: " ++ py png_path)
  else print (py "Pillow not available or rasterization skipped. PNG not created.").


(** *** Notions used to state the properties *)

Definition bbox_height (bbox : Z * Z * Z * Z) : Z :=
  let '(_, bbox1, _, bbox3) := bbox in (bbox3 - bbox1)%Z.

(** The strings of the text operations of an image, in drawing order. *)
Definition drawn_lines (img : Image) : list str :=
  omap (fun op => match op with Text _ t _ _ => Some t | Rectangle _ _ => None end)
       (im_ops img).

(** The top coordinates of the text operations of an image. *)
Definition text_tops (img : Image) : list Z :=
  omap (fun op => match op with Text (_, y) _ _ _ => Some y | Rectangle _ _ => None end)
       (im_ops img).

(** The first candidate that loads, if any. *)
Fixpoint first_loadable (candidates : list string) : option Font :=
  match candidates with
  | [] => None
  | p :: candidates' =>
      match truetype p 48 with
      | Returned f => Some f
      | Raised _ => first_loadable candidates'
      end
  end.

Definition chosen_font (candidates : list string) : Font :=
  match first_loadable candidates with
  | Some f => f
  | None => load_default
  end.

(** The bitmap [rasterize_svg_to_png] saves for [text]. *)
Definition rendering (size : Z) (text : str) : Image :=
  let font := chosen_font possible_fonts in
  let lines := textwrap.wrap text max_chars in
  let line_h := bbox_height (textbbox font (py "A")) in
  let total_h :=
    (line_h * Z.of_nat (length lines) + (Z.of_nat (length lines) - 1) * 6)%Z in
  draw_lines font size lines ((size - total_h) // 2)
    (draw_op (Rectangle [40; 40; size - 40; size - 40]%Z (11, 18, 32)%Z)
       {| im_mode := "RGB"; im_size := (size, size);
          im_color := (15, 23, 42)%Z; im_ops := [] |}).


(** The computation leaves the quote table as it found it. *)
Definition keeps_quotes {A} (m : M A) : Prop :=
  forall st, g_QUOTES (snd (m st)) = g_QUOTES st.


(** The library takes the three calls the raster renderer makes for this
    size and this path: the canvas, the panel and the save. *)
Definition pillow_accepts (size : Z) (png_path : string) : bool :=
  match new_raises "RGB" (size, size),
        rectangle_raises (size, size) [40; 40; size - 40; size - 40]%Z,
        save_raises png_path (size, size) with
  | None, None, None => true
  | _, _, _ => false
  end.

(** A regular file can be created or replaced at [path]: the path is not a
    directory and the directory it lies in exists. *)
Definition writable (st : State) (path : string) : bool :=
  negb (bool_decide (path ∈ dirs st))
  && bool_decide (posix.dirname path ∈ dirs st).

(** [path.mkdir(exist_ok=True)] goes through: the directory exists, or
    nothing has that name and the directory above exists. *)
Definition can_mkdir (st : State) (path : string) : bool :=
  bool_decide (path ∈ dirs st)
  || (match files st !! path with None => true | Some _ => false end
      && bool_decide (posix.dirname path ∈ dirs st)).

(** The text the raster renderer draws: the quote it is given, or the
    first entry of the table. *)
Definition text_to_draw (quote : option str) (st : State) : option str :=
  match quote with
  | Some text => Some text
  | None => g_QUOTES st !! 0
  end.

End Program.

(** ** Notions used to state the properties of [textwrap] *)

Import textwrap.

(** The text is a contiguous part of the document. *)
Definition infix (needle hay : str) : Prop :=
  exists pre post, hay = pre ++ needle ++ post.


(** A character that is neither blank nor a hyphen. *)
Definition plain_char (c : ascii) : bool :=
  negb (isspace c) && negb (is_hyphen c).

Definition plain_word (width : nat) (w : str) : bool :=
  (1 <=? length w) && (length w <=? width) && forallb plain_char w.

(** The chunks of words joined by single spaces. *)
Fixpoint sep_chunks (ws : list str) : list str :=
  match ws with
  | [] => []
  | [w] => [w]
  | w :: ws' => w :: [SPACE] :: sep_chunks ws'
  end.

Definition tail_chunks (ws : list str) : list str :=
  match ws with
  | [] => []
  | _ :: _ => [SPACE] :: sep_chunks ws
  end.

Definition spaced (c : ascii) : Prop := c = SPACE \/ plain_char c = true.


Definition plain_words (width : nat) (ws : list str) : Prop :=
  Forall (fun w => plain_word width w = true) ws.


(** An imaging library with a single installed font, for concrete runs.
    It refuses a negative size or one of 2^31 or more, a box whose second
    corner is before the first, and a path that does not end in [.png]. *)
Definition demo_imaging : Imaging := {|
  Font := string;
  truetype := fun p _ =>
    if String.eqb p "/Library/Fonts/Arial.ttf" then Returned p
    else Raised (OtherException "OSError");
  load_default := "default"%string;
  textbbox := fun _ text => (0, 3, 20 * Z.of_nat (length text), 51)%Z;
  new_raises := fun _ size =>
    if ((size.1 <? 0) || (size.2 <? 0))%Z
    then Some (OtherException "ValueError")
    else if ((2147483648 <=? size.1) || (2147483648 <=? size.2))%Z
    then Some (OtherException "OverflowError")
    else None;
  rectangle_raises := fun _ box =>
    match box with
    | [x0; y0; x1; y1] =>
        if ((x1 <? x0) || (y1 <? y0))%Z
        then Some (OtherException "ValueError")
        else None
    | _ => Some (OtherException "ValueError")
    end;
  save_raises := fun path _ =>
    if String.eqb (String.substring (String.length path - 4) 4 path) ".png"
    then None
    else Some (OtherException "ValueError")
|}.

(** The state after the module body has run in a file system that holds the
    directory of the script, [/srv/app], the root and nothing else. *)
Definition demo_disk (pil_imported : bool) : State (PIL := demo_imaging) :=
  module_init pil_imported {["/"%string; "/srv"%string; "/srv/app"%string]} ∅.

(** A word of 33 characters. *)
Definition long_word : str := repeat "a"%char 33.

(** A quote with two spaces where the line is broken. *)
Definition double_spaced_quote : str :=
  py "Small steps every day lead to  big changes over time.".

(** The sixth quote of the table, word by word. *)
Definition sixth_quote_words : list str :=
  map py ["Start"; "where"; "you"; "are."; "Use"; "what"; "you"; "have.";
          "Do"; "what"; "you"; "can."]%string.

(** ** Reading the document back *)

(** [s.startswith(prefix)] *)
Fixpoint starts_with (prefix s : str) : bool :=
  match prefix, s with
  | [], _ => true
  | _ :: _, [] => false
  | a :: prefix', c :: s' => Ascii.eqb a c && starts_with prefix' s'
  end.

(** [sub in s] *)
Fixpoint contains (sub s : str) : bool :=
  starts_with sub s
  || match s with
     | [] => false
     | _ :: s' => contains sub s'
     end.

(** [s.find(sep)], [None] standing for -1. *)
Fixpoint find (sep s : str) : option nat :=
  if starts_with sep s then Some 0
  else
    match s with
    | [] => None
    | _ :: s' => option_map S (find sep s')
    end.

(** [s.split(sep)] for a separator that is not empty: the text is cut at
    the occurrences of the separator, found from the left one after the
    other. *)
Fixpoint split_fuel (fuel : nat) (sep s : str) : list str :=
  match fuel with
  | 0 => [s]
  | S fuel' =>
      match find sep s with
      | None => [s]
      | Some i => firstn i s :: split_fuel fuel' sep (skipn (i + length sep) s)
      end
  end.

Definition split (sep s : str) : list str := split_fuel (length s) sep s.

(** The lines a text holds between line-break markers; an empty text holds
    no line (no line of a wrap is empty). *)
Definition marker_lines (text : str) : list str :=
  match text with
  | [] => []
  | _ :: _ => split BR text
  end.

(** [int(s)] for a decimal numeral: an optional minus sign and then at
    least one digit; [None] for any other text. *)
Definition int_of_str (s : str) : option Z :=
  match DecimalString.NilZero.int_of_string (string_of_list_ascii s) with
  | Some (Decimal.Pos Decimal.Nil) | Some (Decimal.Neg Decimal.Nil) => None
  | Some d => Some (Z.of_int d)
  | None => None
  end.

(** No character of the word is a whitespace character. *)
Definition solid (word : str) : Prop :=
  Forall (fun c => is_whitespace c = false) word.

(** A quote that holds the text of the line-break marker. *)
Definition marker_quote : str := py "a<br/>b".

(** ** Notions used to state further properties *)

(** The characters of a text that are not blank, in order. *)
Definition nonblank (s : str) : str :=
  List.filter (fun c => negb (isspace c)) s.

(** A character that is a space or no whitespace at all: not a tab, a
    newline, a vertical tab, a form feed or a carriage return. *)
Definition tidy (c : ascii) : bool :=
  negb (is_whitespace c) || Ascii.eqb c SPACE.

Definition bbox_width (bbox : Z * Z * Z * Z) : Z :=
  let '(bbox0, _, bbox2, _) := bbox in (bbox2 - bbox0)%Z.

Section MoreNotions.

Context `{PIL : Imaging}.

(** The text operations of an image, in drawing order: position, string,
    font and colour. *)
Definition text_items (img : Image) : list (Z * Z * str * Font * rgb) :=
  omap (fun op => match op with
                  | Text xy t f c => Some (xy, t, f, c)
                  | Rectangle _ _ => None
                  end)
       (im_ops img).

Definition is_text (op : DrawOp) : bool :=
  match op with Text _ _ _ _ => true | Rectangle _ _ => false end.

(** The directory, the two paths and the two messages of a run of [main]
    that starts in [base] at the clock reading [ts]. *)
Definition out_dir_of (base : string) : string :=
  posix.joinpath base "outputs".

Definition svg_path_of (base ts : string) : string :=
  posix.joinpath (out_dir_of base) ("quote-" +:+ ts +:+ ".svg")%string.

Definition png_path_of (base ts : string) : string :=
  posix.joinpath (out_dir_of base) ("quote-" +:+ ts +:+ ".png")%string.

(** The lines are stacked: each top is the top before plus the measured
    height of the line before plus 6. *)
Definition stacked_from (font : Font) (y : Z) (lines : list str)
    (tops : list Z) : Prop :=
  length tops = length lines
  /\ (forall l lines', lines = l :: lines' -> head tops = Some y)
  /\ (forall i yi l yi',
        tops !! i = Some yi -> lines !! i = Some l ->
        tops !! S i = Some yi' ->
        yi' = (yi + (bbox_height (textbbox font l) + 6))%Z).

(** The state [main] leaves once the vector document is saved and
    reported, when nothing has failed so far. *)
Definition after_svg (base ts : string) (quote : str) (st : State) : State :=
  add_output (py "Saved SVG to: " ++ py (svg_path_of base ts))
    (set_file (svg_path_of base ts)
       (TextFile (make_svg_text_block quote 1080))
       (add_dir (out_dir_of base) st)).

End MoreNotions.

(** * Properties of [textwrap] *)

Lemma fill_line_spec width chunks : forall cur_line cur_len,
  exists taken rest,
    fill_line width cur_line cur_len chunks
      = (cur_line ++ taken, cur_len + length (concat taken), rest)
    /\ chunks = taken ++ rest
    /\ (cur_len <= width -> cur_len + length (concat taken) <= width)
    /\ match rest with
       | c :: _ => width < cur_len + length (concat taken) + length c
       | [] => True
       end.
Proof.
  induction chunks as [|c chunks IH]; intros cur_line cur_len; simpl.
  - exists [], []. simpl. rewrite app_nil_r, Nat.add_0_r. auto.
  - destruct (Nat.leb_spec (cur_len + length c) width) as [Hfit|Hfull].
    + destruct (IH (cur_line ++ [c]) (cur_len + length c))
        as (taken & rest & Heq & Hch & Hle & Hrest).
      exists (c :: taken), rest. simpl. rewrite length_app.
      rewrite Heq, <- app_assoc. simpl.
      rewrite Nat.add_assoc. repeat split; try lia; auto.
      now rewrite Hch.
    + exists [], (c :: chunks). simpl.
      rewrite app_nil_r, Nat.add_0_r. repeat split; auto; lia.
Qed.

Lemma rfind_from_bound s : forall i j,
  rfind_from i s = Some j -> i <= j < i + length s.
Proof.
  induction s as [|c s IH]; intros i j; simpl; [discriminate|].
  destruct (rfind_from (S i) s) as [k|] eqn:E.
  - intros [= <-]. apply IH in E. lia.
  - destruct (is_hyphen c); [intros [= <-]; lia | discriminate].
Qed.

Lemma rfind_hyphen_lt chunk stop j :
  rfind_hyphen chunk stop = Some j -> j < stop.
Proof.
  unfold rfind_hyphen. intros H. apply rfind_from_bound in H.
  rewrite length_firstn in H. lia.
Qed.

Lemma break_point_bounds chunk space_left :
  break_point chunk space_left <= space_left
  /\ (1 <= space_left -> 1 <= break_point chunk space_left).
Proof.
  unfold break_point.
  destruct (space_left <? length chunk); [|lia].
  destruct (rfind_hyphen chunk space_left) as [h|] eqn:E; [|lia].
  apply rfind_hyphen_lt in E.
  destruct (_ && _); lia.
Qed.

Lemma chunks_measure_app a b :
  chunks_measure (a ++ b) = chunks_measure a + chunks_measure b.
Proof. induction a as [|c a IH]; simpl; [reflexivity|]. rewrite IH. lia. Qed.

Lemma drop_trailing_blank_prefix cur_line :
  exists dropped, cur_line = drop_trailing_blank cur_line ++ dropped.
Proof.
  unfold drop_trailing_blank.
  destruct (last cur_line) as [c|] eqn:E.
  - destruct (is_blank c).
    + exists [c]. apply last_Some in E as [l' ->].
      now rewrite removelast_last.
    + exists []. now rewrite app_nil_r.
  - exists []. now rewrite app_nil_r.
Qed.

(** What one pass of the outer loop does, for a positive width. *)
Lemma wrap_line_spec width chunks lines :
  1 <= width ->
  exists dropped cur_line3 chunks3,
    wrap_line width chunks lines
      = (chunks3,
         match drop_trailing_blank cur_line3 with
         | [] => lines
         | _ :: _ => lines ++ [concat (drop_trailing_blank cur_line3)]
         end)
    /\ concat chunks = concat dropped ++ concat cur_line3 ++ concat chunks3
    /\ length (concat cur_line3) <= width
    /\ (chunks <> [] -> chunks_measure chunks3 < chunks_measure chunks).
Proof.
  intros Hw. unfold wrap_line.
  set (chunks1 := match chunks with [] => [] | c :: chunks' => _ end).
  assert (Hdrop : exists dropped, chunks = dropped ++ chunks1
            /\ (chunks <> [] -> chunks1 = [] -> dropped <> [])).
  { subst chunks1. destruct chunks as [|c chunks']; [exists []; auto|].
    destruct (_ && _).
    - exists [c]. split; [reflexivity|]. discriminate.
    - exists []. split; [reflexivity|]. intros _ [=]. }
  destruct Hdrop as (dropped & Hch & Hne). clearbody chunks1.
  destruct (fill_line_spec width chunks1 [] 0)
    as (taken & rest & Heq & Hsplit & Hle & Hrest).
  rewrite Heq. cbn [app Nat.add]. cbn [app Nat.add] in Hle, Hrest.
  specialize (Hle ltac:(lia)). subst chunks chunks1.
  destruct rest as [|c rest'].
  - exists dropped, taken, []. split; [reflexivity|].
    rewrite !concat_app. cbn [concat]. rewrite !app_nil_r.
    repeat split; auto.
    intros Hnil. rewrite !chunks_measure_app. cbn.
    destruct dropped as [|d ?]; cbn.
    + destruct taken as [|t ?]; cbn; [|lia].
      exfalso. apply Hne; auto.
    + lia.
  - destruct (Nat.ltb_spec width (length c)) as [Hlong|Hshort].
    + unfold _handle_long_word.
      replace (width <? 1) with false by (symmetry; apply Nat.ltb_ge; lia).
      set (sl := width - length (concat taken)).
      destruct (break_point_bounds c sl) as [Hb1 Hb2].
      set (e := break_point c sl) in *.
      exists dropped, (taken ++ [firstn e c]), (skipn e c :: rest').
      split; [reflexivity|].
      rewrite !concat_app. cbn [concat]. rewrite !app_nil_r.
      rewrite <- !app_assoc.
      rewrite (app_assoc (firstn e c)), firstn_skipn.
      rewrite !length_app, length_firstn.
      repeat split; [lia|].
      intros _. rewrite !chunks_measure_app. cbn. rewrite length_skipn.
      destruct dropped as [|d ?]; cbn; [|lia].
      destruct taken as [|t ?]; cbn; [|lia].
      cbn in sl. assert (1 <= e) by (apply Hb2; subst sl; lia). lia.
    + exists dropped, taken, (c :: rest'). split; [reflexivity|].
      rewrite !concat_app.
      repeat split; auto.
      intros _. rewrite !chunks_measure_app.
      destruct dropped as [|d ?]; cbn; [|lia].
      destruct taken as [|t ?]; cbn; [|lia].
      cbn in Hrest. lia.
Qed.

Lemma Forall_concat_drop_trailing_blank (P : ascii -> Prop) cur_line :
  Forall P (concat cur_line) ->
  Forall P (concat (drop_trailing_blank cur_line)).
Proof.
  destruct (drop_trailing_blank_prefix cur_line) as [d Hd].
  rewrite Hd at 1. rewrite concat_app, Forall_app. tauto.
Qed.

Lemma length_concat_drop_trailing_blank cur_line :
  length (concat (drop_trailing_blank cur_line)) <= length (concat cur_line).
Proof.
  destruct (drop_trailing_blank_prefix cur_line) as [d Hd].
  rewrite Hd at 2. rewrite concat_app, length_app. lia.
Qed.

Section WrapLoop.

Variable width : nat.
Hypothesis width_pos : 1 <= width.

Lemma wrap_loop_fuel fuel1 : forall fuel2 chunks lines,
  chunks_measure chunks <= fuel1 ->
  chunks_measure chunks <= fuel2 ->
  wrap_loop fuel1 width chunks lines = wrap_loop fuel2 width chunks lines.
Proof.
  induction fuel1 as [|fuel1 IH]; intros fuel2 chunks lines H1 H2.
  - destruct chunks; [|simpl in H1; lia]. now destruct fuel2.
  - destruct chunks as [|c chunks]; [now destruct fuel2|].
    destruct fuel2 as [|fuel2]; [simpl in H2; lia|].
    cbn [wrap_loop].
    destruct (wrap_line_spec width (c :: chunks) lines width_pos)
      as (d & cl & chunks3 & Heq & _ & _ & Hm).
    rewrite Heq. specialize (Hm ltac:(discriminate)).
    apply IH; lia.
Qed.

(** The loop equation of [_wrap_chunks]: the fuel never runs out. *)
Lemma wrap_loop_unfold chunks lines :
  wrap_loop (chunks_measure chunks) width chunks lines
  = match chunks with
    | [] => lines
    | _ :: _ =>
        let '(chunks', lines') := wrap_line width chunks lines in
        wrap_loop (chunks_measure chunks') width chunks' lines'
    end.
Proof.
  destruct chunks as [|c chunks]; [reflexivity|].
  change (chunks_measure (c :: chunks))
    with (S (length c + chunks_measure chunks)).
  cbn [wrap_loop].
  destruct (wrap_line_spec width (c :: chunks) lines width_pos)
    as (d & cl & chunks3 & Heq & _ & _ & Hm).
  rewrite Heq. specialize (Hm ltac:(discriminate)).
  apply wrap_loop_fuel; [|lia].
  change (chunks_measure (c :: chunks))
    with (S (length c + chunks_measure chunks)) in Hm. lia.
Qed.

(** Every line is at most [width] long and is made of characters of the
    chunks. *)
Lemma wrap_loop_lines (P : ascii -> Prop) fuel : forall chunks lines,
  Forall P (concat chunks) ->
  Forall (fun l => length l <= width /\ Forall P l) lines ->
  Forall (fun l => length l <= width /\ Forall P l)
         (wrap_loop fuel width chunks lines).
Proof.
  induction fuel as [|fuel IH]; intros chunks lines Hc Hl; [assumption|].
  destruct chunks as [|c chunks]; [assumption|].
  cbn [wrap_loop].
  destruct (wrap_line_spec width (c :: chunks) lines width_pos)
    as (d & cl & chunks3 & Heq & Hcat & Hlen & _).
  rewrite Heq. rewrite Hcat, !Forall_app in Hc.
  destruct Hc as (_ & Hcl & Hc3).
  apply IH; [assumption|].
  destruct (drop_trailing_blank cl) as [|x xs] eqn:E; [assumption|].
  apply Forall_app. split; [assumption|].
  constructor; [|constructor]. rewrite <- E. split.
  - pose proof (length_concat_drop_trailing_blank cl). lia.
  - now apply Forall_concat_drop_trailing_blank.
Qed.

End WrapLoop.

(** *** The split tiles the text *)

Lemma ws_run_le rest : ws_run rest <= length rest.
Proof. induction rest as [|c r IH]; simpl; [lia|]. destruct (is_whitespace c); simpl; lia. Qed.

Lemma hyphen_run_le rest : hyphen_run rest <= length rest.
Proof. induction rest as [|c r IH]; simpl; [lia|]. destruct (is_hyphen c); simpl; lia. Qed.

Lemma word_tail_le rest : forall before_rev,
  word_tail before_rev rest <= length rest.
Proof.
  induction rest as [|c r IH]; intros b; simpl; [lia|].
  destruct (_ && _); [lia|].
  destruct (is_whitespace c); [lia|].
  destruct (emdash_here b (c :: r)); [lia|].
  specialize (IH (c :: b)). lia.
Qed.

Lemma wordsep_match_bounds before_rev c rest :
  1 <= wordsep_match before_rev (c :: rest) <= length (c :: rest).
Proof.
  unfold wordsep_match.
  destruct (is_whitespace c) eqn:Ews.
  - pose proof (ws_run_le (c :: rest)). simpl in *. rewrite Ews in *. lia.
  - destruct (emdash_here before_rev (c :: rest)) eqn:Eem.
    + pose proof (hyphen_run_le (c :: rest)).
      unfold emdash_here in Eem.
      apply andb_prop in Eem as [Eem _]. apply andb_prop in Eem as [_ Eem].
      apply Nat.leb_le in Eem. lia.
    + pose proof (word_tail_le rest (c :: before_rev)). simpl. lia.
Qed.

Lemma concat_split_loop fuel : forall before_rev rest,
  length rest <= fuel ->
  concat (split_loop fuel before_rev rest) = rest
  /\ Forall (fun c => c <> []) (split_loop fuel before_rev rest).
Proof.
  induction fuel as [|fuel IH]; intros b rest Hlen.
  - destruct rest; [split; [reflexivity|constructor]|simpl in Hlen; lia].
  - destruct rest as [|c rest]; [split; [reflexivity|constructor]|].
    cbn [split_loop].
    pose proof (wordsep_match_bounds b c rest) as Hn.
    set (n := wordsep_match b (c :: rest)) in *.
    destruct (IH (rev (firstn n (c :: rest)) ++ b) (skipn n (c :: rest)))
      as [Hcat Hne].
    { rewrite length_skipn. lia. }
    split.
    + cbn [concat]. rewrite Hcat. apply firstn_skipn.
    + constructor; [|assumption].
      destruct n; [lia|]. discriminate.
Qed.

Lemma filter_nonempty (l : list str) :
  Forall (fun c => c <> []) l ->
  List.filter (fun c => negb (Nat.eqb (length c) 0)) l = l.
Proof.
  induction 1 as [|c l Hc Hl IH]; [reflexivity|].
  cbn [List.filter]. destruct c; [contradiction|]. cbn. now rewrite IH.
Qed.

Lemma _split_eq text : _split text = split_loop (length text) [] text.
Proof.
  unfold _split. apply filter_nonempty.
  now apply concat_split_loop.
Qed.

Lemma concat__split text : concat (_split text) = text.
Proof. rewrite _split_eq. now apply concat_split_loop. Qed.

(** *** Results on [wrap] *)

Lemma wrap_lines text width (P : ascii -> Prop) :
  1 <= width ->
  Forall P (_munge_whitespace text) ->
  Forall (fun l => length l <= width /\ Forall P l) (wrap text width).
Proof.
  intros Hw HP. unfold wrap, _wrap_chunks, _split_chunks.
  apply wrap_loop_lines; [assumption| |constructor].
  now rewrite concat__split.
Qed.

Lemma wrap_length_le text width :
  1 <= width -> Forall (fun l => length l <= width) (wrap text width).
Proof.
  intros Hw.
  eapply List.Forall_impl; [|apply (wrap_lines text width (fun _ => True) Hw)].
  - intros l [H _]. exact H.
  - apply List.Forall_forall. auto.
Qed.

Lemma is_whitespace_NEWLINE : is_whitespace NEWLINE = true.
Proof. reflexivity. Qed.

Lemma munge_no_newline text :
  Forall (fun c => c <> NEWLINE) (_munge_whitespace text).
Proof.
  unfold _munge_whitespace, translate_whitespace.
  apply List.Forall_forall. intros c Hin. apply in_map_iff in Hin as (c0 & <- & _).
  destruct (is_whitespace c0) eqn:E; [discriminate|].
  intros ->. now rewrite is_whitespace_NEWLINE in E.
Qed.

Lemma wrap_no_newline text width :
  1 <= width ->
  Forall (Forall (fun c => c <> NEWLINE)) (wrap text width).
Proof.
  intros Hw.
  eapply List.Forall_impl; [|apply (wrap_lines text width _ Hw (munge_no_newline text))].
  intros l [_ H]. exact H.
Qed.


Lemma replace_char_app old new a b :
  replace_char old new (a ++ b)
  = replace_char old new a ++ replace_char old new b.
Proof.
  induction a as [|c a IH]; [reflexivity|]. simpl.
  destruct (Ascii.eqb c old); rewrite IH; [now rewrite app_assoc|reflexivity].
Qed.

Lemma replace_char_absent old new s :
  Forall (fun c => c <> old) s -> replace_char old new s = s.
Proof.
  induction 1 as [|c s Hc Hs IH]; [reflexivity|]. simpl.
  destruct (Ascii.eqb_spec c old); [contradiction|]. now rewrite IH.
Qed.

Lemma replace_char_join old new lines :
  Forall (Forall (fun c => c <> old)) lines ->
  replace_char old new (join [old] lines) = join new lines.
Proof.
  induction 1 as [|l lines Hl Hls IH]; [reflexivity|].
  destruct lines as [|l' lines].
  - simpl. now apply replace_char_absent.
  - change (join [old] (l :: l' :: lines))
      with (l ++ [old] ++ join [old] (l' :: lines)).
    change (join new (l :: l' :: lines))
      with (l ++ new ++ join new (l' :: lines)).
    rewrite !replace_char_app, IH, (replace_char_absent _ _ l Hl).
    simpl. rewrite Ascii.eqb_refl. now rewrite app_nil_r.
Qed.

Lemma sep_chunks_cons w ws : sep_chunks (w :: ws) = w :: tail_chunks ws.
Proof. destruct ws; reflexivity. Qed.

Lemma join_cons sep w ws :
  join sep (w :: ws) = w ++ concat (map (fun x => sep ++ x) ws).
Proof.
  revert w. induction ws as [|w' ws IH]; intros w.
  - simpl. now rewrite app_nil_r.
  - change (join sep (w :: w' :: ws)) with (w ++ sep ++ join sep (w' :: ws)).
    rewrite IH. simpl. now rewrite <- app_assoc.
Qed.

Lemma concat_sep_chunks ws : concat (sep_chunks ws) = join [SPACE] ws.
Proof.
  induction ws as [|w ws IH]; [reflexivity|].
  destruct ws as [|w' ws]; [simpl; now rewrite app_nil_r|].
  change (sep_chunks (w :: w' :: ws)) with (w :: [SPACE] :: sep_chunks (w' :: ws)).
  cbn [concat]. now rewrite IH.
Qed.

Lemma code_inj c1 c2 : code c1 = code c2 -> c1 = c2.
Proof.
  unfold code. intros H.
  rewrite <- (ascii_nat_embedding c1), <- (ascii_nat_embedding c2).
  now rewrite H.
Qed.

Ltac classes :=
  unfold plain_char, is_blank, isspace, is_whitespace, is_hyphen, in_range in *;
  repeat match goal with
  | H : context [Ascii.eqb ?a ?b] |- _ => destruct (Ascii.eqb_spec a b); subst
  | |- context [Ascii.eqb ?a ?b] => destruct (Ascii.eqb_spec a b); subst
  | H : context [Nat.leb ?a ?b] |- _ => destruct (Nat.leb_spec a b)
  | |- context [Nat.leb ?a ?b] => destruct (Nat.leb_spec a b)
  | H : context [Nat.eqb ?a ?b] |- _ => destruct (Nat.eqb_spec a b)
  | |- context [Nat.eqb ?a ?b] => destruct (Nat.eqb_spec a b)
  end; cbn in *; try congruence; try lia.

Lemma plain_not_whitespace c : plain_char c = true -> is_whitespace c = false.
Proof. intros H. classes. Qed.

Lemma plain_not_hyphen c : plain_char c = true -> is_hyphen c = false.
Proof. intros H. classes. Qed.

Lemma plain_not_space c : plain_char c = true -> isspace c = false.
Proof. intros H. classes. Qed.

Lemma plain_not_tab c : plain_char c = true -> Ascii.eqb c TAB = false.
Proof.
  intros H. destruct (Ascii.eqb_spec c TAB) as [->|]; [|reflexivity].
  discriminate.
Qed.

Lemma expandtabs_from_spaced tabsize text : forall line_pos,
  Forall spaced text -> expandtabs_from tabsize line_pos text = text.
Proof.
  induction text as [|c text IH]; intros p H; [reflexivity|].
  inversion H as [|? ? Hc Ht]; subst. simpl.
  replace (Ascii.eqb c TAB) with false.
  - now rewrite IH.
  - destruct Hc as [->|Hc]; [reflexivity|]. symmetry. now apply plain_not_tab.
Qed.

Lemma translate_whitespace_spaced text :
  Forall spaced text -> translate_whitespace text = text.
Proof.
  induction 1 as [|c text Hc Ht IH]; [reflexivity|].
  unfold translate_whitespace in *. simpl. rewrite IH.
  destruct Hc as [->|Hc]; [reflexivity|].
  now rewrite (plain_not_whitespace c Hc).
Qed.

Lemma munge_spaced text :
  Forall spaced text -> _munge_whitespace text = text.
Proof.
  intros H. unfold _munge_whitespace, expandtabs.
  rewrite (expandtabs_from_spaced 8 text 0 H).
  now apply translate_whitespace_spaced.
Qed.

Lemma plain_word_inv width w :
  plain_word width w = true ->
  exists c w', w = c :: w' /\ length w <= width
               /\ Forall (fun c => plain_char c = true) w.
Proof.
  unfold plain_word. intros H.
  apply andb_prop in H as [H H3]. apply andb_prop in H as [H1 H2].
  apply Nat.leb_le in H1, H2.
  destruct w as [|c w']; [simpl in H1; lia|].
  exists c, w'. repeat split; auto.
  apply List.Forall_forall. now apply forallb_forall.
Qed.

Lemma join_spaced width ws :
  plain_words width ws -> Forall spaced (join [SPACE] ws).
Proof.
  induction 1 as [|w ws Hw Hws IH]; [constructor|].
  rewrite join_cons.
  apply plain_word_inv in Hw as (c & w' & -> & _ & Hp).
  apply Forall_app. split.
  - eapply List.Forall_impl; [|exact Hp]. intros a Ha. now right.
  - clear IH. induction Hws as [|v vs Hv Hvs IH]; [constructor|].
    cbn [map concat]. constructor; [now left|].
    apply Forall_app. split; [|exact IH].
    apply plain_word_inv in Hv as (c' & v' & -> & _ & Hp').
    eapply List.Forall_impl; [|exact Hp']. intros a Ha. now right.
Qed.

(** The word branch on a run of plain characters stops exactly at the
    space or at the end of the text. *)
Lemma word_tail_plain w : forall before_rev rest,
  Forall (fun c => plain_char c = true) w ->
  rest = [] \/ (exists rest', rest = SPACE :: rest') ->
  word_tail before_rev (w ++ rest) = length w.
Proof.
  induction w as [|c w IH]; intros b rest Hw Hrest.
  - destruct Hrest as [->|[rest' ->]]; reflexivity.
  - inversion Hw as [|? ? Hc Hw']; subst.
    cbn [app word_tail length].
    rewrite (plain_not_hyphen c Hc), (plain_not_whitespace c Hc).
    cbn [andb].
    replace (emdash_here b (c :: w ++ rest)) with false.
    + now rewrite IH.
    + unfold emdash_here. cbn [hyphen_run].
      rewrite (plain_not_hyphen c Hc). cbn. now rewrite andb_false_r.
Qed.

Lemma wordsep_match_plain c w before_rev rest :
  Forall (fun c => plain_char c = true) (c :: w) ->
  rest = [] \/ (exists rest', rest = SPACE :: rest') ->
  wordsep_match before_rev ((c :: w) ++ rest) = length (c :: w).
Proof.
  intros Hw Hrest. inversion Hw as [|? ? Hc Hw']; subst.
  cbn [app wordsep_match length].
  rewrite (plain_not_whitespace c Hc).
  replace (emdash_here before_rev (c :: w ++ rest)) with false.
  - now rewrite word_tail_plain.
  - unfold emdash_here. cbn [hyphen_run].
    rewrite (plain_not_hyphen c Hc). cbn. now rewrite andb_false_r.
Qed.

Lemma split_loop_plain width ws : forall fuel before_rev,
  plain_words width ws ->
  length (join [SPACE] ws) <= fuel ->
  split_loop fuel before_rev (join [SPACE] ws) = sep_chunks ws.
Proof.
  induction ws as [|w ws IH]; intros fuel b Hws Hfuel.
  - now destruct fuel.
  - inversion Hws as [|? ? Hw Hws']; subst.
    apply plain_word_inv in Hw as (c & w' & -> & _ & Hp).
    destruct ws as [|v ws].
    + (* the last word *)
      cbn [join sep_chunks] in *.
      destruct fuel as [|fuel]; [simpl in Hfuel; lia|].
      cbn [split_loop].
      pose proof (wordsep_match_plain c w' b [] Hp (or_introl eq_refl)) as Hm.
      rewrite app_nil_r in Hm. rewrite Hm.
      rewrite firstn_all, skipn_all. now destruct fuel.
    + change (join [SPACE] ((c :: w') :: v :: ws))
        with ((c :: w') ++ SPACE :: join [SPACE] (v :: ws)) in *.
      change (sep_chunks ((c :: w') :: v :: ws))
        with ((c :: w') :: [SPACE] :: sep_chunks (v :: ws)).
      rewrite length_app in Hfuel. cbn [length] in Hfuel.
      destruct fuel as [|fuel]; [lia|].
      cbn [split_loop app].
      pose proof (wordsep_match_plain c w' b (SPACE :: join [SPACE] (v :: ws))
                    Hp (or_intror (ex_intro _ _ eq_refl))) as Hm.
      cbn [app] in Hm. rewrite Hm.
      change (c :: w' ++ SPACE :: join [SPACE] (v :: ws))
        with ((c :: w') ++ SPACE :: join [SPACE] (v :: ws)).
      rewrite take_app_length, drop_app_length. f_equal.
      (* the space *)
      destruct fuel as [|fuel]; [lia|].
      cbn [split_loop].
      assert (Hone : wordsep_match (rev (c :: w') ++ b)
                       (SPACE :: join [SPACE] (v :: ws)) = 1).
      { inversion Hws' as [|? ? Hv _]; subst.
        apply plain_word_inv in Hv as (c' & v' & -> & _ & Hp').
        rewrite join_cons. inversion Hp' as [|? ? Hc' _]; subst.
        cbn. now rewrite (plain_not_whitespace c' Hc'). }
      rewrite Hone. cbn [firstn skipn]. f_equal.
      apply IH; [assumption|lia].
Qed.

Lemma _split_chunks_plain width ws :
  plain_words width ws ->
  _split_chunks (join [SPACE] ws) = sep_chunks ws.
Proof.
  intros Hws. unfold _split_chunks.
  rewrite (munge_spaced _ (join_spaced width ws Hws)).
  rewrite _split_eq. now apply (split_loop_plain width).
Qed.


Lemma join_app sep (a b : list str) :
  a <> [] -> b <> [] -> join sep (a ++ b) = join sep a ++ sep ++ join sep b.
Proof.
  intros Ha Hb. induction a as [|x a IH]; [contradiction|].
  destruct a as [|y a].
  - destruct b; [contradiction|]. reflexivity.
  - change (join sep ((x :: y :: a) ++ b))
      with (x ++ sep ++ join sep ((y :: a) ++ b)).
    rewrite IH by discriminate.
    change (join sep (x :: y :: a)) with (x ++ sep ++ join sep (y :: a)).
    now rewrite <- !app_assoc.
Qed.

Lemma join_groups sep (groups : list (list str)) :
  Forall (fun g => g <> []) groups ->
  join sep (map (join sep) groups) = join sep (concat groups).
Proof.
  induction 1 as [|g groups Hg Hgs IH]; [reflexivity|].
  destruct groups as [|g' groups].
  - simpl. now rewrite app_nil_r.
  - change (join sep (map (join sep) (g :: g' :: groups)))
      with (join sep g ++ sep ++ join sep (map (join sep) (g' :: groups))).
    rewrite IH. cbn [concat].
    rewrite (join_app sep g); [reflexivity|assumption|].
    inversion Hgs as [|? ? Hg' _]; subst.
    destruct g'; [contradiction|discriminate].
Qed.

Lemma sep_chunks_app g ws :
  g <> [] -> sep_chunks (g ++ ws) = sep_chunks g ++ tail_chunks ws.
Proof.
  intros Hg. induction g as [|x g IH]; [contradiction|].
  destruct g as [|y g].
  - cbn [app]. now rewrite sep_chunks_cons.
  - change (sep_chunks ((x :: y :: g) ++ ws))
      with (x :: [SPACE] :: sep_chunks ((y :: g) ++ ws)).
    now rewrite IH by discriminate.
Qed.

Lemma drop_trailing_blank_snoc l c :
  drop_trailing_blank (l ++ [c]) = if is_blank c then l else l ++ [c].
Proof.
  unfold drop_trailing_blank. rewrite last_snoc.
  destruct (is_blank c); [apply removelast_last|reflexivity].
Qed.

Lemma is_blank_plain width w : plain_word width w = true -> is_blank w = false.
Proof.
  intros H. apply plain_word_inv in H as (c & w' & -> & _ & Hp).
  inversion Hp as [|? ? Hc _]; subst.
  unfold is_blank. cbn [forallb]. now rewrite (plain_not_space c Hc).
Qed.

Lemma plain_word_length width w : plain_word width w = true -> length w <= width.
Proof. intros H. now apply plain_word_inv in H as (c & w' & _ & H & _). Qed.

Lemma drop_trailing_blank_sep_chunks width g :
  plain_words width g -> drop_trailing_blank (sep_chunks g) = sep_chunks g.
Proof.
  intros Hg. destruct g as [|x g] using rev_ind; [reflexivity|].
  apply Forall_app in Hg as [_ Hx]. inversion Hx as [|? ? Hx' _]; subst.
  destruct g as [|y g].
  - cbn. unfold drop_trailing_blank. cbn [last].
    now rewrite (is_blank_plain width x Hx').
  - rewrite sep_chunks_app by discriminate. cbn [tail_chunks sep_chunks].
    change ([SPACE] :: [x]) with ([[SPACE]] ++ [x]).
    rewrite app_assoc, drop_trailing_blank_snoc.
    now rewrite (is_blank_plain width x Hx').
Qed.

Section PlainWords.

Variable width : nat.
Hypothesis width_pos : 1 <= width.

(** The inner loop on words and single spaces: it stops after a word or
    after a space, and what it has taken, less a trailing space, is a group
    of whole words. *)
Lemma fill_line_plain ws2 : forall g,
  g <> [] -> plain_words width g -> plain_words width ws2 ->
  exists g' ws3 cur len rest,
    ws2 = g' ++ ws3
    /\ fill_line width (sep_chunks g) (length (join [SPACE] g))
                 (tail_chunks ws2) = (cur, len, rest)
    /\ drop_trailing_blank cur = sep_chunks (g ++ g')
    /\ (rest = tail_chunks ws3 \/ (ws3 <> [] /\ rest = sep_chunks ws3)).
Proof.
  induction ws2 as [|w ws2 IH]; intros g Hne Hg Hws.
  - exists [], [], (sep_chunks g), (length (join [SPACE] g)), [].
    rewrite (app_nil_r g). repeat split; auto.
    now apply (drop_trailing_blank_sep_chunks width).
  - inversion Hws as [|? ? Hw Hws2]; subst.
    cbn [tail_chunks]. rewrite sep_chunks_cons. cbn [fill_line length].
    destruct (Nat.leb_spec (length (join [SPACE] g) + 1) width) as [Hsp|Hsp].
    + destruct (Nat.leb_spec (length (join [SPACE] g) + 1 + length w) width)
        as [Hfit|Hfull].
      * destruct (IH (g ++ [w])) as (g' & ws3 & cur & len & rest & E1 & E2 & E3 & E4).
        { now destruct g. }
        { apply Forall_app. split; [assumption|]. constructor; [assumption|constructor]. }
        { assumption. }
        exists (w :: g'), ws3, cur, len, rest.
        rewrite <- app_assoc in E3. cbn [app] in E3.
        repeat split; [now rewrite E1| |assumption|assumption].
        rewrite <- E2. f_equal.
        -- rewrite sep_chunks_app by assumption. cbn.
           now rewrite <- app_assoc.
        -- rewrite join_app by (assumption || discriminate).
           rewrite !length_app. cbn. lia.
      * exists [], (w :: ws2), (sep_chunks g ++ [[SPACE]]),
               (length (join [SPACE] g) + 1), (w :: tail_chunks ws2).
        rewrite (app_nil_r g), drop_trailing_blank_snoc. cbn.
        repeat split; auto.
        right. split; [discriminate|]. now destruct ws2.
    + exists [], (w :: ws2), (sep_chunks g), (length (join [SPACE] g)),
             ([SPACE] :: w :: tail_chunks ws2).
      rewrite (app_nil_r g). repeat split; auto.
      * now apply (drop_trailing_blank_sep_chunks width).
      * left. cbn [tail_chunks]. now rewrite sep_chunks_cons.
Qed.

(** One pass of the outer loop on words and single spaces emits a group of
    whole words joined by single spaces. *)
Lemma wrap_line_plain w ws lines :
  plain_words width (w :: ws) ->
  exists g ws3 rest,
    g <> [] /\ w :: ws = g ++ ws3
    /\ wrap_line width (sep_chunks (w :: ws)) lines
       = (rest, lines ++ [join [SPACE] g])
    /\ (rest = tail_chunks ws3 \/ (ws3 <> [] /\ rest = sep_chunks ws3))
    /\ plain_words width ws3.
Proof.
  intros Hws. inversion Hws as [|? ? Hw Hws']; subst.
  destruct (fill_line_plain ws [w]) as (g' & ws3 & cur & len & rest & E1 & E2 & E3 & E4);
    [discriminate|constructor; [assumption|constructor]|assumption|].
  assert (Hws3 : plain_words width ws3).
  { rewrite E1 in Hws'. now apply Forall_app in Hws' as [_ ?]. }
  exists (w :: g'), ws3, rest.
  split; [discriminate|]. split; [now rewrite E1|].
  split; [|split; assumption].
  unfold wrap_line. rewrite sep_chunks_cons.
  rewrite (is_blank_plain width w Hw). cbn [andb fill_line Nat.add app].
  pose proof (plain_word_length width w Hw) as Hlen.
  destruct (Nat.leb_spec (length w) width) as [_|]; [|lia].
  cbn [sep_chunks join] in E2. rewrite E2.
  assert (Hshort : match rest with
                   | c :: _ => (width <? length c) = false
                   | [] => True
                   end).
  { destruct E4 as [->|[Hne ->]].
    - destruct ws3; [exact I|]. cbn [tail_chunks]. apply Nat.ltb_ge.
      exact width_pos.
    - destruct ws3 as [|v ws3]; [contradiction|].
      rewrite sep_chunks_cons. apply Nat.ltb_ge.
      inversion Hws3; subst. now apply (plain_word_length width). }
  replace (match rest with
           | [] => (rest, cur)
           | c :: _ =>
               if width <? length c
               then _handle_long_word rest cur len width
               else (rest, cur)
           end) with (rest, cur)
    by (destruct rest; [reflexivity|now rewrite Hshort]).
  rewrite E3. cbn [app]. rewrite sep_chunks_cons.
  now rewrite <- sep_chunks_cons, concat_sep_chunks.
Qed.

Lemma wrap_line_tail_chunks ws lines :
  lines <> [] -> plain_words width ws ->
  wrap_line width (tail_chunks ws) lines
  = wrap_line width (sep_chunks ws) lines.
Proof.
  intros Hl Hws. destruct ws as [|w ws]; [reflexivity|].
  inversion Hws as [|? ? Hw _]; subst.
  unfold wrap_line. cbn [tail_chunks]. rewrite sep_chunks_cons.
  rewrite (is_blank_plain width w Hw).
  destruct lines; [contradiction|]. reflexivity.
Qed.

Lemma wrap_loop_plain n : forall ws chunks lines,
  length ws <= n ->
  plain_words width ws ->
  chunks = sep_chunks ws \/ (lines <> [] /\ chunks = tail_chunks ws) ->
  exists groups,
    Forall (fun g => g <> []) groups
    /\ concat groups = ws
    /\ wrap_loop (chunks_measure chunks) width chunks lines
       = lines ++ map (join [SPACE]) groups.
Proof.
  induction n as [|n IH]; intros ws chunks lines Hn Hws Hch.
  - destruct ws; [|simpl in Hn; lia].
    exists []. rewrite app_nil_r.
    destruct Hch as [->|[_ ->]]; repeat split; constructor.
  - destruct ws as [|w ws].
    { exists []. rewrite app_nil_r.
      destruct Hch as [->|[_ ->]]; repeat split; constructor. }
    destruct (wrap_line_plain w ws lines Hws)
      as (g & ws3 & rest & Hg & Hsplit & Hline & Hrest & Hws3).
    assert (Hline' : wrap_line width chunks lines
                     = (rest, lines ++ [join [SPACE] g])).
    { destruct Hch as [->|[Hl ->]]; [assumption|].
      now rewrite wrap_line_tail_chunks. }
    assert (Hcne : chunks <> []).
    { destruct Hch as [->|[_ ->]]; [rewrite sep_chunks_cons|]; discriminate. }
    rewrite (wrap_loop_unfold width width_pos).
    destruct chunks as [|c chunks]; [contradiction|].
    rewrite Hline'.
    destruct (IH ws3 rest (lines ++ [join [SPACE] g]))
      as (groups & Hgs & Hcat & Hloop).
    + assert (length (w :: ws) = length g + length ws3)
        by (rewrite Hsplit; apply length_app).
      destruct g; [contradiction|]. simpl in *. lia.
    + assumption.
    + destruct Hrest as [->|[_ ->]]; [right|left; reflexivity].
      split; [|reflexivity]. now destruct lines.
    + exists (g :: groups). repeat split.
      * now constructor.
      * cbn [concat]. now rewrite Hcat.
      * rewrite Hloop, <- app_assoc. reflexivity.
Qed.

(** Wrapping words joined by single spaces groups the words into lines. *)
Lemma wrap_plain ws :
  plain_words width ws ->
  exists groups,
    Forall (fun g => g <> []) groups
    /\ concat groups = ws
    /\ wrap (join [SPACE] ws) width = map (join [SPACE]) groups.
Proof.
  intros Hws. unfold wrap, _wrap_chunks.
  rewrite (_split_chunks_plain width ws Hws).
  destruct (wrap_loop_plain (length ws) ws (sep_chunks ws) [] (le_n _) Hws)
    as (groups & H1 & H2 & H3); [now left|].
  exists groups. auto.
Qed.

Lemma join_wrap_plain ws :
  plain_words width ws ->
  join [SPACE] (wrap (join [SPACE] ws) width) = join [SPACE] ws.
Proof.
  intros Hws. destruct (wrap_plain ws Hws) as (groups & H1 & H2 & H3).
  now rewrite H3, join_groups, H2.
Qed.

End PlainWords.

(** * Further properties of [textwrap] *)

Lemma drop_trailing_blank_split cur_line :
  exists dropped,
    cur_line = drop_trailing_blank cur_line ++ dropped
    /\ forallb is_blank dropped = true.
Proof.
  unfold drop_trailing_blank.
  destruct (last cur_line) as [c|] eqn:E.
  - destruct (is_blank c) eqn:Eb.
    + exists [c]. apply last_Some in E as [l' ->].
      rewrite removelast_last. cbn. now rewrite Eb.
    + exists []. now rewrite app_nil_r.
  - exists []. now rewrite app_nil_r.
Qed.

(** One pass of the outer loop, case by case: a blank chunk may be dropped
    in front, whole chunks are taken, and a chunk longer than the width is
    cut. *)
Lemma wrap_line_cases width chunks lines :
  1 <= width ->
  exists dropped taken rest cur_line3 chunks3,
    chunks = dropped ++ taken ++ rest
    /\ forallb is_blank dropped = true
    /\ wrap_line width chunks lines
       = (chunks3,
          match drop_trailing_blank cur_line3 with
          | [] => lines
          | _ :: _ => lines ++ [concat (drop_trailing_blank cur_line3)]
          end)
    /\ ((cur_line3 = taken /\ chunks3 = rest)
        \/ exists c rest' e,
             rest = c :: rest' /\ e < length c
             /\ cur_line3 = taken ++ [firstn e c]
             /\ chunks3 = skipn e c :: rest').
Proof.
  intros Hw. unfold wrap_line.
  set (chunks1 := match chunks with [] => [] | c :: chunks' => _ end).
  assert (Hdrop : exists dropped, chunks = dropped ++ chunks1
                                  /\ forallb is_blank dropped = true).
  { subst chunks1. destruct chunks as [|c chunks']; [exists []; auto|].
    destruct (is_blank c) eqn:Eb; cbn [andb].
    - destruct (negb (is_nil lines)).
      + exists [c]. cbn. now rewrite Eb.
      + exists []. auto.
    - exists []. auto. }
  destruct Hdrop as (dropped & Hch & Hblank). clearbody chunks1.
  destruct (fill_line_spec width chunks1 [] 0)
    as (taken & rest & Heq & Hsplit & Hle & Hrest).
  rewrite Heq. cbn [app Nat.add]. cbn [app Nat.add] in Hle, Hrest.
  specialize (Hle ltac:(lia)). subst chunks chunks1.
  destruct rest as [|c rest'].
  - exists dropped, taken, [], taken, []. repeat split; auto.
  - destruct (Nat.ltb_spec width (length c)) as [Hlong|Hshort].
    + unfold _handle_long_word.
      replace (width <? 1) with false by (symmetry; apply Nat.ltb_ge; lia).
      set (sl := width - length (concat taken)).
      destruct (break_point_bounds c sl) as [Hb1 _].
      set (e := break_point c sl) in *.
      exists dropped, taken, (c :: rest'), (taken ++ [firstn e c]),
             (skipn e c :: rest').
      repeat split; auto.
      right. exists c, rest', e. repeat split; auto. subst sl. lia.
    + exists dropped, taken, (c :: rest'), taken, (c :: rest').
      repeat split; auto.
Qed.

Lemma nonblank_app a b : nonblank (a ++ b) = nonblank a ++ nonblank b.
Proof. unfold nonblank. apply List.filter_app. Qed.

Lemma nonblank_blank c : is_blank c = true -> nonblank c = [].
Proof.
  unfold is_blank, nonblank. induction c as [|x c IH]; [reflexivity|].
  cbn. intros H. apply andb_prop in H as [Hx Hc]. rewrite Hx. cbn. auto.
Qed.

Lemma nonblank_concat_blank chunks :
  forallb is_blank chunks = true -> nonblank (concat chunks) = [].
Proof.
  induction chunks as [|c chunks IH]; [reflexivity|].
  cbn. intros H. apply andb_prop in H as [Hc Hcs].
  now rewrite nonblank_app, (nonblank_blank c Hc), IH.
Qed.

Lemma nonblank_drop_trailing_blank cur_line :
  nonblank (concat (drop_trailing_blank cur_line))
  = nonblank (concat cur_line).
Proof.
  destruct (drop_trailing_blank_split cur_line) as (d & Hd & Hb).
  rewrite Hd at 2.
  now rewrite concat_app, nonblank_app, (nonblank_concat_blank d Hb), app_nil_r.
Qed.

Lemma wrap_line_nonblank width chunks lines :
  1 <= width ->
  nonblank (concat (snd (wrap_line width chunks lines)))
    ++ nonblank (concat (fst (wrap_line width chunks lines)))
  = nonblank (concat lines) ++ nonblank (concat chunks).
Proof.
  intros Hw.
  destruct (wrap_line_cases width chunks lines Hw)
    as (dropped & taken & rest & cur3 & chunks3 & Hch & Hb & Heq & Hcase).
  rewrite Heq. cbn [fst snd].
  assert (Hline : nonblank (concat
            match drop_trailing_blank cur3 with
            | [] => lines
            | _ :: _ => lines ++ [concat (drop_trailing_blank cur3)]
            end) = nonblank (concat lines) ++ nonblank (concat cur3)).
  { rewrite <- (nonblank_drop_trailing_blank cur3).
    destruct (drop_trailing_blank cur3) as [|x xs].
    - cbn. now rewrite app_nil_r.
    - rewrite concat_app, nonblank_app. cbn [concat]. now rewrite app_nil_r. }
  rewrite Hline, Hch, !concat_app, !nonblank_app.
  rewrite (nonblank_concat_blank dropped Hb). cbn [app].
  rewrite <- app_assoc. f_equal.
  destruct Hcase as [[-> ->]|(c & rest' & e & -> & He & -> & ->)];
    [reflexivity|].
  rewrite concat_app, nonblank_app. cbn [concat].
  rewrite app_nil_r, <- app_assoc. f_equal.
  rewrite <- !nonblank_app. f_equal.
  now rewrite app_assoc, firstn_skipn.
Qed.

Lemma wrap_loop_nonblank width fuel : forall chunks lines,
  1 <= width ->
  chunks_measure chunks <= fuel ->
  nonblank (concat (wrap_loop fuel width chunks lines))
  = nonblank (concat lines) ++ nonblank (concat chunks).
Proof.
  induction fuel as [|fuel IH]; intros chunks lines Hw Hfuel.
  - destruct chunks; [|simpl in Hfuel; lia]. cbn. now rewrite app_nil_r.
  - destruct chunks as [|c chunks]; [cbn; now rewrite app_nil_r|].
    cbn [wrap_loop].
    pose proof (wrap_line_nonblank width (c :: chunks) lines Hw) as Hnb.
    destruct (wrap_line_spec width (c :: chunks) lines Hw)
      as (d & cl & chunks3 & Heq & _ & _ & Hm).
    rewrite Heq in *. cbn [fst snd] in Hnb.
    specialize (Hm ltac:(discriminate)).
    rewrite IH by (auto; lia). exact Hnb.
Qed.

Lemma is_whitespace_isspace c : is_whitespace c = true -> isspace c = true.
Proof.
  unfold is_whitespace, isspace, in_range.
  destruct (Nat.leb_spec 9 (code c)), (Nat.leb_spec (code c) 13),
    (Nat.leb_spec 28 (code c)), (Nat.leb_spec (code c) 32),
    (Nat.eqb_spec (code c) 32), (Nat.eqb_spec (code c) 133),
    (Nat.eqb_spec (code c) 160); cbn; intros; try reflexivity;
    try discriminate; lia.
Qed.

Lemma nonblank_repeat_space n : nonblank (repeat SPACE n) = [].
Proof. induction n; [reflexivity|]. exact IHn. Qed.

Lemma nonblank_expandtabs_from tabsize text : forall line_pos,
  nonblank (expandtabs_from tabsize line_pos text) = nonblank text.
Proof.
  induction text as [|c text IH]; intros p; [reflexivity|].
  cbn [expandtabs_from].
  destruct (Ascii.eqb_spec c TAB) as [->|Hc].
  - change (nonblank (TAB :: text)) with (nonblank text).
    destruct (0 <? tabsize); [|apply IH].
    now rewrite nonblank_app, nonblank_repeat_space, IH.
  - unfold nonblank in *. cbn [List.filter]. now rewrite IH.
Qed.

Lemma nonblank_translate_whitespace text :
  nonblank (translate_whitespace text) = nonblank text.
Proof.
  unfold translate_whitespace, nonblank.
  induction text as [|c text IH]; [reflexivity|].
  cbn [map List.filter]. rewrite IH.
  destruct (is_whitespace c) eqn:E; [|reflexivity].
  now rewrite (is_whitespace_isspace c E).
Qed.

Lemma nonblank_munge text : nonblank (_munge_whitespace text) = nonblank text.
Proof.
  unfold _munge_whitespace, expandtabs.
  now rewrite nonblank_translate_whitespace, nonblank_expandtabs_from.
Qed.

Lemma nonblank_wrap text width :
  1 <= width -> nonblank (concat (wrap text width)) = nonblank text.
Proof.
  intros Hw. unfold wrap, _wrap_chunks, _split_chunks.
  rewrite wrap_loop_nonblank by auto.
  cbn [concat app]. now rewrite concat__split, nonblank_munge.
Qed.

(** *** No line is empty *)

Lemma concat_nonempty (l : list str) :
  Forall (fun c => c <> []) l -> l <> [] -> concat l <> [].
Proof.
  intros H Hne. destruct H as [|c l Hc _]; [contradiction|].
  cbn. destruct c; [contradiction|discriminate].
Qed.

Lemma is_blank_nil_inv c : is_blank c = false -> c <> [].
Proof. intros H ->. discriminate. Qed.

Lemma wrap_line_nonempty width chunks lines :
  1 <= width ->
  Forall (fun c => c <> []) chunks ->
  Forall (fun l => l <> []) lines ->
  Forall (fun c => c <> []) (fst (wrap_line width chunks lines))
  /\ Forall (fun l => l <> []) (snd (wrap_line width chunks lines)).
Proof.
  intros Hw Hc Hl.
  destruct (wrap_line_cases width chunks lines Hw)
    as (dropped & taken & rest & cur3 & chunks3 & Hch & _ & Heq & Hcase).
  rewrite Heq. cbn [fst snd]. subst chunks.
  apply Forall_app in Hc as [_ Hc]. apply Forall_app in Hc as [Ht Hr].
  assert (Hemit : forall cur,
            Forall (fun c => c <> []) cur ->
            Forall (fun l => l <> [])
              match cur with [] => lines | _ :: _ => lines ++ [concat cur] end).
  { intros cur Hcur. destruct cur as [|x xs] eqn:E; [assumption|].
    apply Forall_app. split; [assumption|].
    constructor; [|constructor]. apply concat_nonempty; [assumption|discriminate]. }
  destruct Hcase as [[-> ->]|(c & rest' & e & -> & He & -> & ->)].
  - split; [assumption|]. apply Hemit.
    destruct (drop_trailing_blank_split taken) as (d & Hd & _).
    rewrite Hd in Ht. now apply Forall_app in Ht as [? _].
  - inversion Hr as [|? ? Hcne Hr']; subst. split.
    + constructor; [|assumption].
      intros Hnil. apply (f_equal (@length ascii)) in Hnil.
      rewrite length_skipn in Hnil. simpl in Hnil. lia.
    + apply Hemit. rewrite drop_trailing_blank_snoc.
      destruct (is_blank (firstn e c)) eqn:Eb; [assumption|].
      apply Forall_app. split; [assumption|].
      constructor; [|constructor]. now apply is_blank_nil_inv.
Qed.

Lemma wrap_loop_nonempty width fuel : forall chunks lines,
  1 <= width ->
  Forall (fun c => c <> []) chunks ->
  Forall (fun l => l <> []) lines ->
  Forall (fun l => l <> []) (wrap_loop fuel width chunks lines).
Proof.
  induction fuel as [|fuel IH]; intros chunks lines Hw Hc Hl; [assumption|].
  destruct chunks as [|c chunks]; [assumption|].
  cbn [wrap_loop].
  destruct (wrap_line_nonempty width (c :: chunks) lines Hw Hc Hl) as [H1 H2].
  destruct (wrap_line width (c :: chunks) lines) as [chunks' lines'].
  now apply IH.
Qed.

Lemma _split_nonempty text : Forall (fun c => c <> []) (_split text).
Proof. rewrite _split_eq. now apply concat_split_loop. Qed.

Lemma wrap_nonempty text width :
  1 <= width -> Forall (fun l => l <> []) (wrap text width).
Proof.
  intros Hw. unfold wrap, _wrap_chunks.
  apply wrap_loop_nonempty; [assumption|apply _split_nonempty|constructor].
Qed.

(** *** Only spaces are left of the whitespace *)

Lemma tidy_SPACE : tidy SPACE = true.
Proof. reflexivity. Qed.

Lemma tidy_not_tab c : tidy c = true -> Ascii.eqb c TAB = false.
Proof.
  intros H. destruct (Ascii.eqb_spec c TAB) as [->|]; [discriminate|reflexivity].
Qed.

Lemma tidy_whitespace c : tidy c = true -> is_whitespace c = true -> c = SPACE.
Proof.
  unfold tidy. intros H Hws. rewrite Hws in H. cbn in H.
  now apply Ascii.eqb_eq.
Qed.

Lemma munge_all_tidy text :
  Forall (fun c => tidy c = true) (_munge_whitespace text).
Proof.
  unfold _munge_whitespace, translate_whitespace.
  apply List.Forall_forall. intros c Hin.
  apply in_map_iff in Hin as (c0 & <- & _).
  destruct (is_whitespace c0) eqn:E; [reflexivity|].
  unfold tidy. now rewrite E.
Qed.

Lemma expandtabs_from_tidy tabsize text : forall line_pos,
  Forall (fun c => tidy c = true) text ->
  expandtabs_from tabsize line_pos text = text.
Proof.
  induction text as [|c text IH]; intros p H; [reflexivity|].
  inversion H as [|? ? Hc Ht]; subst. cbn [expandtabs_from].
  rewrite (tidy_not_tab c Hc). now rewrite IH.
Qed.

Lemma translate_whitespace_tidy text :
  Forall (fun c => tidy c = true) text -> translate_whitespace text = text.
Proof.
  induction 1 as [|c text Hc Ht IH]; [reflexivity|].
  unfold translate_whitespace in *. cbn [map]. rewrite IH.
  destruct (is_whitespace c) eqn:E; [|reflexivity].
  now rewrite (tidy_whitespace c Hc E).
Qed.

Lemma munge_tidy text :
  Forall (fun c => tidy c = true) text -> _munge_whitespace text = text.
Proof.
  intros H. unfold _munge_whitespace, expandtabs.
  rewrite (expandtabs_from_tidy 8 text 0 H).
  now apply translate_whitespace_tidy.
Qed.

Lemma wrap_munge text width :
  wrap (_munge_whitespace text) width = wrap text width.
Proof.
  unfold wrap, _split_chunks.
  now rewrite (munge_tidy _ (munge_all_tidy text)).
Qed.

Lemma wrap_all_tidy text width :
  1 <= width ->
  Forall (Forall (fun c => tidy c = true)) (wrap text width).
Proof.
  intros Hw.
  eapply List.Forall_impl;
    [|apply (wrap_lines text width _ Hw (munge_all_tidy text))].
  intros l [_ H]. exact H.
Qed.

(** *** A text that fits is one line *)

Lemma fill_line_all width chunks : forall cur_line cur_len,
  cur_len + length (concat chunks) <= width ->
  fill_line width cur_line cur_len chunks
  = (cur_line ++ chunks, cur_len + length (concat chunks), []).
Proof.
  induction chunks as [|c chunks IH]; intros cur len H.
  - cbn. now rewrite app_nil_r, Nat.add_0_r.
  - cbn [fill_line concat] in *. rewrite length_app in H.
    destruct (Nat.leb_spec (len + length c) width) as [_|]; [|lia].
    rewrite IH by lia. rewrite <- app_assoc, length_app. cbn.
    f_equal. f_equal. lia.
Qed.

Lemma wrap_loop_single_line width chunks last_chunk :
  chunks <> [] ->
  length (concat chunks) <= width ->
  last chunks = Some last_chunk ->
  is_blank last_chunk = false ->
  wrap_loop (chunks_measure chunks) width chunks [] = [concat chunks].
Proof.
  intros Hne Hfit Hlast Hnb.
  destruct chunks as [|c chunks]; [contradiction|].
  change (chunks_measure (c :: chunks))
    with (S (length c + chunks_measure chunks)).
  cbn [wrap_loop]. unfold wrap_line. cbn [is_nil negb].
  rewrite andb_false_r.
  rewrite (fill_line_all width (c :: chunks) [] 0) by (cbn [Nat.add]; exact Hfit).
  cbn [app]. unfold drop_trailing_blank. rewrite Hlast, Hnb.
  now destruct (length c + chunks_measure chunks).
Qed.

Lemma last_concat (l : list str) c :
  Forall (fun x => x <> []) l ->
  last (concat l) = Some c ->
  exists x, last l = Some x /\ last x = Some c.
Proof.
  induction l as [|x l IH] using rev_ind; intros Hne Hlast.
  - discriminate.
  - apply Forall_app in Hne as [_ Hx]. inversion Hx as [|? ? Hx' _]; subst.
    exists x. rewrite last_snoc. split; [reflexivity|].
    rewrite concat_app in Hlast. cbn [concat] in Hlast.
    rewrite app_nil_r in Hlast.
    destruct x as [|a x] using rev_ind; [contradiction|].
    rewrite app_assoc, last_snoc in Hlast. now rewrite last_snoc.
Qed.

Lemma is_blank_last x c :
  last x = Some c -> isspace c = false -> is_blank x = false.
Proof.
  intros Hlast Hc. apply last_Some in Hlast as [x' ->].
  unfold is_blank. rewrite forallb_app. cbn. rewrite Hc.
  now rewrite andb_false_r.
Qed.

Lemma wrap_single_line text width c :
  Forall (fun c => tidy c = true) text ->
  length text <= width ->
  last text = Some c ->
  isspace c = false ->
  wrap text width = [text].
Proof.
  intros Htidy Hfit Hlast Hc. unfold wrap, _wrap_chunks, _split_chunks.
  rewrite (munge_tidy text Htidy).
  pose proof (concat__split text) as Hcat.
  destruct (last_concat (_split text) c (_split_nonempty text))
    as (x & Hx & Hxc); [now rewrite Hcat|].
  rewrite (wrap_loop_single_line width (_split text) x).
  - now rewrite Hcat.
  - intros E. now rewrite E in Hx.
  - now rewrite Hcat.
  - exact Hx.
  - now apply (is_blank_last x c).
Qed.

(** *** A text of whitespace only gives no line *)

Lemma expandtabs_from_whitespace tabsize text : forall line_pos,
  Forall (fun c => is_whitespace c = true) text ->
  Forall (fun c => is_whitespace c = true)
         (expandtabs_from tabsize line_pos text).
Proof.
  induction text as [|c text IH]; intros p H; [constructor|].
  inversion H as [|? ? Hc Ht]; subst. cbn [expandtabs_from].
  destruct (Ascii.eqb c TAB).
  - destruct (0 <? tabsize); [|now apply IH].
    apply Forall_app. split; [|now apply IH].
    apply List.Forall_forall. intros x Hx.
    apply repeat_spec in Hx. now subst.
  - constructor; [assumption|now apply IH].
Qed.

Lemma translate_whitespace_all text :
  Forall (fun c => is_whitespace c = true) text ->
  translate_whitespace text = repeat SPACE (length text).
Proof.
  induction 1 as [|c text Hc Ht IH]; [reflexivity|].
  unfold translate_whitespace in *. cbn. now rewrite Hc, IH.
Qed.

Lemma munge_whitespace_only text :
  Forall (fun c => is_whitespace c = true) text ->
  exists k, _munge_whitespace text = repeat SPACE k.
Proof.
  intros H. eexists. unfold _munge_whitespace.
  apply translate_whitespace_all.
  now apply expandtabs_from_whitespace.
Qed.

Lemma ws_run_spaces k : ws_run (repeat SPACE k) = k.
Proof. induction k; [reflexivity|]. cbn. now rewrite IHk. Qed.

Lemma firstn_spaces n k : n <= k -> firstn n (repeat SPACE k) = repeat SPACE n.
Proof.
  revert k. induction n as [|n IH]; intros k H; [reflexivity|].
  destruct k; [lia|]. cbn. rewrite IH by lia. reflexivity.
Qed.

Lemma skipn_spaces n k : skipn n (repeat SPACE k) = repeat SPACE (k - n).
Proof.
  revert k. induction n as [|n IH]; intros k.
  - now rewrite Nat.sub_0_r.
  - destruct k; [reflexivity|]. cbn. apply IH.
Qed.

Lemma _split_spaces k :
  _split (repeat SPACE k) = match k with 0 => [] | S _ => [repeat SPACE k] end.
Proof.
  rewrite _split_eq. rewrite repeat_length.
  destruct k as [|k]; [reflexivity|].
  cbn [split_loop repeat].
  change (wordsep_match [] (SPACE :: repeat SPACE k))
    with (ws_run (repeat SPACE (S k))).
  rewrite ws_run_spaces.
  change (SPACE :: repeat SPACE k) with (repeat SPACE (S k)).
  rewrite firstn_spaces, skipn_spaces, Nat.sub_diag by lia.
  now destruct k.
Qed.

Lemma is_blank_spaces k : is_blank (repeat SPACE k) = true.
Proof. induction k; [reflexivity|]. exact IHk. Qed.

Lemma rfind_from_spaces k : forall i, rfind_from i (repeat SPACE k) = None.
Proof. induction k; intros i; [reflexivity|]. cbn. now rewrite IHk. Qed.

Lemma break_point_spaces k w : w < k -> break_point (repeat SPACE k) w = w.
Proof.
  intros H. unfold break_point. rewrite repeat_length.
  destruct (Nat.ltb_spec w k); [|lia].
  unfold rfind_hyphen. rewrite firstn_spaces by lia.
  now rewrite rfind_from_spaces.
Qed.

Lemma wrap_line_spaces width k :
  1 <= width ->
  wrap_line width [repeat SPACE k] []
  = (if k <=? width then [] else [repeat SPACE (k - width)], []).
Proof.
  intros Hw. unfold wrap_line. cbn [is_nil negb]. rewrite andb_false_r.
  cbn [fill_line Nat.add]. rewrite repeat_length.
  destruct (Nat.leb_spec k width) as [Hfit|Hlong].
  - cbn [app]. unfold drop_trailing_blank. cbn [last].
    now rewrite is_blank_spaces.
  - rewrite repeat_length.
    destruct (Nat.ltb_spec width k); [|lia].
    unfold _handle_long_word.
    replace (width <? 1) with false by (symmetry; apply Nat.ltb_ge; lia).
    cbn [concat length]. rewrite Nat.sub_0_r.
    rewrite break_point_spaces by lia.
    rewrite firstn_spaces by lia. rewrite skipn_spaces.
    cbn [app]. unfold drop_trailing_blank. cbn [last].
    now rewrite is_blank_spaces.
Qed.

Lemma wrap_loop_spaces width : 1 <= width -> forall n k,
  k <= n ->
  wrap_loop (chunks_measure [repeat SPACE k]) width [repeat SPACE k] [] = [].
Proof.
  intros Hw. induction n as [|n IH]; intros k Hk.
  - assert (k = 0) as -> by lia. reflexivity.
  - rewrite (wrap_loop_unfold width Hw). rewrite (wrap_line_spaces width k Hw).
    destruct (Nat.leb_spec k width); [reflexivity|].
    apply IH. lia.
Qed.

Lemma wrap_whitespace_only text width :
  1 <= width ->
  Forall (fun c => is_whitespace c = true) text ->
  wrap text width = [].
Proof.
  intros Hw H. unfold wrap, _wrap_chunks, _split_chunks.
  destruct (munge_whitespace_only text H) as [k ->].
  rewrite _split_spaces. destruct k as [|k]; [reflexivity|].
  now apply (wrap_loop_spaces width Hw (S k)).
Qed.

(** *** Every line is a piece of the text *)

Lemma infix_trans (a b c : str) : infix a b -> infix b c -> infix a c.
Proof.
  intros (p1 & q1 & ->) (p2 & q2 & ->).
  exists (p2 ++ p1), (q1 ++ q2). now rewrite <- !app_assoc.
Qed.

Lemma wrap_loop_infix width text fuel : forall chunks lines before,
  1 <= width ->
  text = before ++ concat chunks ->
  Forall (fun l => infix l text) lines ->
  Forall (fun l => infix l text) (wrap_loop fuel width chunks lines).
Proof.
  induction fuel as [|fuel IH]; intros chunks lines before Hw Ht Hl;
    [assumption|].
  destruct chunks as [|c chunks]; [assumption|].
  cbn [wrap_loop].
  destruct (wrap_line_spec width (c :: chunks) lines Hw)
    as (d & cl & chunks3 & Heq & Hcat & _ & _).
  rewrite Heq. rewrite Hcat in Ht.
  apply (IH chunks3 _ (before ++ concat d ++ concat cl) Hw).
  - rewrite Ht. now rewrite <- !app_assoc.
  - destruct (drop_trailing_blank_prefix cl) as [dropped Hd].
    destruct (drop_trailing_blank cl) as [|x xs] eqn:E; [assumption|].
    apply Forall_app. split; [assumption|].
    constructor; [|constructor].
    exists (before ++ concat d), (concat dropped ++ concat chunks3).
    rewrite Ht, Hd, concat_app. now rewrite <- !app_assoc.
Qed.

Lemma wrap_lines_infix text width :
  1 <= width ->
  Forall (fun l => infix l (_munge_whitespace text)) (wrap text width).
Proof.
  intros Hw. unfold wrap, _wrap_chunks, _split_chunks.
  apply (wrap_loop_infix width _ _ _ _ [] Hw); [|constructor].
  now rewrite concat__split.
Qed.

(** *** Finding a text in a text *)

Lemma starts_with_app (p rest : str) : starts_with p (p ++ rest) = true.
Proof.
  induction p as [|a p IH]; [reflexivity|].
  cbn. now rewrite Ascii.eqb_refl.
Qed.

Lemma starts_with_inv (p s : str) :
  starts_with p s = true -> exists rest, s = p ++ rest.
Proof.
  revert s. induction p as [|a p IH]; intros s H; [now exists s|].
  destruct s as [|c s]; [discriminate|]. cbn in H.
  apply andb_prop in H as [Hc Hs]. apply Ascii.eqb_eq in Hc as ->.
  destruct (IH s Hs) as [rest ->]. now exists rest.
Qed.

Lemma contains_infix (sub s : str) : contains sub s = true <-> infix sub s.
Proof.
  split.
  - induction s as [|c s IH]; cbn; intros H.
    + rewrite orb_false_r in H. apply starts_with_inv in H as [rest ->].
      now exists [], rest.
    + apply orb_prop in H as [H|H].
      * apply starts_with_inv in H as [rest ->]. now exists [], rest.
      * destruct (IH H) as (p & r & ->). now exists (c :: p), r.
  - intros (p & r & ->). induction p as [|c p IH].
    + cbn [app]. destruct (sub ++ r) eqn:E; cbn; rewrite <- ?E;
        now rewrite starts_with_app.
    + cbn. rewrite IH. apply orb_true_r.
Qed.

Lemma contains_false_infix (sub s t : str) :
  contains sub t = false -> infix s t -> contains sub s = false.
Proof.
  intros Ht Hst. destruct (contains sub s) eqn:E; [|reflexivity].
  apply contains_infix in E.
  apply (infix_trans _ _ _ E), contains_infix in Hst. congruence.
Qed.

Lemma find_none (sep s : str) : contains sep s = false -> find sep s = None.
Proof.
  induction s as [|c s IH]; cbn; intros H.
  - rewrite orb_false_r in H. now rewrite H.
  - apply orb_false_elim in H as [H1 H2]. now rewrite H1, IH.
Qed.

(** A word with no whitespace in it is found in a text whose whitespace
    was munged only if it is found in the text itself. *)
Lemma starts_with_translate word : forall text,
  solid word ->
  starts_with word (translate_whitespace text) = starts_with word text.
Proof.
  induction word as [|a w IH]; intros text Hs; [reflexivity|].
  inversion Hs as [|? ? Ha Hw]; subst.
  destruct text as [|c text]; [reflexivity|].
  unfold translate_whitespace in *. cbn [map starts_with].
  rewrite (IH text Hw).
  f_equal. destruct (is_whitespace c) eqn:Ec; [|reflexivity].
  destruct (Ascii.eqb_spec a SPACE) as [->|]; [discriminate|].
  destruct (Ascii.eqb_spec a c) as [->|]; [congruence|reflexivity].
Qed.

Lemma contains_translate word text :
  solid word ->
  contains word (translate_whitespace text) = contains word text.
Proof.
  intros Hs. induction text as [|c text IH].
  - reflexivity.
  - change (translate_whitespace (c :: text))
      with ((if is_whitespace c then SPACE else c)
              :: translate_whitespace text).
    cbn [contains]. rewrite IH. f_equal.
    apply (starts_with_translate word (c :: text) Hs).
Qed.

Lemma starts_with_expandtabs word : forall text line_pos,
  solid word ->
  word <> [] ->
  starts_with word (expandtabs_from 8 line_pos text) = true ->
  starts_with word text = true.
Proof.
  induction word as [|a w IH]; intros text p Hs Hne H; [contradiction|].
  inversion Hs as [|? ? Ha Hw]; subst.
  destruct text as [|c text]; [discriminate|].
  cbn [expandtabs_from] in H.
  destruct (Ascii.eqb_spec c TAB) as [->|Hc].
  - exfalso. cbn [Nat.ltb Nat.leb] in H.
    assert (Hincr : 1 <= 8 - p mod 8).
    { pose proof (Nat.mod_upper_bound p 8 ltac:(lia)). lia. }
    destruct (8 - p mod 8) as [|k]; [lia|].
    cbn in H. apply andb_prop in H as [H _].
    apply Ascii.eqb_eq in H. subst a. discriminate.
  - cbn [starts_with] in *. apply andb_prop in H as [H1 H2].
    rewrite H1. cbn [andb].
    destruct w as [|b w]; [reflexivity|].
    eapply IH; [assumption|discriminate|exact H2].
Qed.

Lemma contains_space_cons word text :
  solid word -> word <> [] ->
  contains word (SPACE :: text) = contains word text.
Proof.
  intros Hs Hne. cbn [contains].
  destruct Hs as [|a w Ha _]; [contradiction|].
  cbn [starts_with].
  destruct (Ascii.eqb_spec a SPACE) as [->|]; [discriminate|reflexivity].
Qed.

Lemma contains_spaces word k text :
  solid word -> word <> [] ->
  contains word (repeat SPACE k ++ text) = contains word text.
Proof.
  intros Hs Hne. induction k as [|k IH]; [reflexivity|].
  cbn [repeat app]. now rewrite contains_space_cons.
Qed.

Lemma contains_expandtabs word text : forall line_pos,
  solid word -> word <> [] ->
  contains word (expandtabs_from 8 line_pos text) = true ->
  contains word text = true.
Proof.
  induction text as [|c text IH]; intros p Hs Hne H.
  - destruct word; [contradiction|discriminate].
  - cbn [expandtabs_from] in H.
    destruct (Ascii.eqb_spec c TAB) as [->|Hc].
    + cbn [Nat.ltb Nat.leb] in H.
      cbn [contains].
      rewrite (IH (p + (8 - p mod 8))); [apply orb_true_r|assumption..|].
      now rewrite contains_spaces in H.
    + cbn [contains] in H. apply orb_prop in H as [H|H].
      * cbn [contains].
        rewrite (starts_with_expandtabs word (c :: text) p Hs Hne);
          [reflexivity|].
        cbn [expandtabs_from].
        destruct (Ascii.eqb_spec c TAB); [contradiction|exact H].
      * cbn [contains]. rewrite (IH _ Hs Hne H). apply orb_true_r.
Qed.

Lemma contains_munge word text :
  solid word -> word <> [] ->
  contains word text = false ->
  contains word (_munge_whitespace text) = false.
Proof.
  intros Hs Hne H. unfold _munge_whitespace, expandtabs.
  rewrite contains_translate by assumption.
  destruct (contains word (expandtabs_from 8 0 text)) eqn:E; [|reflexivity].
  apply contains_expandtabs in E; [congruence|assumption..].
Qed.

Lemma BR_solid : solid BR.
Proof. repeat constructor. Qed.

Lemma wrap_lines_without_marker quote :
  contains BR quote = false ->
  Forall (fun l => contains BR l = false) (wrap quote max_chars).
Proof.
  intros H.
  eapply List.Forall_impl; [|apply (wrap_lines_infix quote max_chars)].
  - intros l Hl. apply (contains_false_infix BR l _ (contains_munge BR quote BR_solid ltac:(discriminate) H) Hl).
  - unfold max_chars. lia.
Qed.

(** *** Cutting at the markers *)

(** The marker does not overlap itself: it cannot start inside a text
    that does not hold it and run into the marker that follows. *)
Lemma starts_with_BR_straddle (l rest : str) :
  l <> [] ->
  starts_with BR (l ++ BR ++ rest) = true ->
  starts_with BR l = true.
Proof.
  intros Hne H.
  destruct l as [|c1 [|c2 [|c3 [|c4 [|c5 l]]]]]; [contradiction|..];
    unfold BR, py in *; cbn [list_ascii_of_string starts_with app] in *;
    repeat match type of H with
    | (Ascii.eqb ?a ?b && _)%bool = true =>
        let Hc := fresh "Hc" in
        apply andb_prop in H as [Hc H]; apply Ascii.eqb_eq in Hc;
        try discriminate Hc; try subst b
    end; reflexivity.
Qed.

Lemma find_BR_after (l rest : str) :
  contains BR l = false -> find BR (l ++ BR ++ rest) = Some (length l).
Proof.
  induction l as [|c l IH]; intros H.
  - reflexivity.
  - cbn [contains] in H. apply orb_false_elim in H as [H1 H2].
    change (find BR ((c :: l) ++ BR ++ rest))
      with (if starts_with BR ((c :: l) ++ BR ++ rest) then Some 0
            else option_map S (find BR (l ++ BR ++ rest))).
    destruct (starts_with BR ((c :: l) ++ BR ++ rest)) eqn:E.
    + apply starts_with_BR_straddle in E; [congruence|discriminate].
    + now rewrite IH.
Qed.

Lemma split_fuel_join_BR lines : forall fuel,
  lines <> [] ->
  Forall (fun l => contains BR l = false) lines ->
  length (join BR lines) <= fuel ->
  split_fuel fuel BR (join BR lines) = lines.
Proof.
  induction lines as [|l lines IH]; intros fuel Hne Hall Hfuel;
    [contradiction|].
  inversion Hall as [|? ? Hl Hls]; subst.
  destruct lines as [|l2 lines].
  - cbn [join]. destruct fuel; cbn [split_fuel]; [reflexivity|].
    now rewrite (find_none BR l Hl).
  - change (join BR (l :: l2 :: lines))
      with (l ++ BR ++ join BR (l2 :: lines)) in *.
    rewrite !length_app in Hfuel. change (length BR) with 5 in Hfuel.
    destruct fuel as [|fuel]; [lia|].
    cbn [split_fuel]. rewrite (find_BR_after l _ Hl).
    rewrite take_app_length. f_equal.
    rewrite app_assoc, <- (length_app l BR), drop_app_length.
    apply IH; [discriminate|assumption|lia].
Qed.

Lemma marker_lines_join lines :
  Forall (fun l => l <> []) lines ->
  Forall (fun l => contains BR l = false) lines ->
  marker_lines (join BR lines) = lines.
Proof.
  intros Hne Hall. destruct lines as [|l lines]; [reflexivity|].
  unfold marker_lines.
  destruct (join BR (l :: lines)) as [|c s] eqn:E.
  - exfalso. inversion Hne as [|? ? Hl _]; subst.
    destruct lines; cbn in E; [contradiction|].
    apply app_eq_nil in E as [-> _]. contradiction.
  - rewrite <- E. unfold split.
    apply split_fuel_join_BR; [discriminate|assumption|lia].
Qed.

(** *** Decimal numerals *)

Lemma int_of_str_of_int (n : Z) : int_of_str (str_of_int n) = Some n.
Proof.
  unfold int_of_str, str_of_int, py.
  rewrite string_of_list_ascii_of_string.
  assert (Hpos : Z.to_int n <> Decimal.Pos Decimal.Nil).
  { destruct n; cbn; try discriminate.
    intros [= H]. now apply DecimalPos.Unsigned.to_uint_nonnil in H. }
  assert (Hneg : Z.to_int n <> Decimal.Neg Decimal.Nil).
  { destruct n; cbn; try discriminate.
    intros [= H]. now apply DecimalPos.Unsigned.to_uint_nonnil in H. }
  rewrite NilZero.isi by assumption.
  destruct (Z.to_int n) as [[| | | | | | | | | |]|[| | | | | | | | | |]] eqn:E;
    try contradiction; rewrite <- E; now rewrite DecimalZ.of_to.
Qed.

(** * Properties of the program *)

Section ProgramFacts.

Context `{PIL : Imaging}.

Lemma try_fonts_spec candidates st :
  try_fonts candidates st = (Returned (first_loadable candidates), st).
Proof.
  induction candidates as [|p candidates IH]; [reflexivity|].
  cbn [try_fonts first_loadable]. unfold bind, try_except, lift, ret.
  destruct (truetype p 48) as [f|e]; [reflexivity|exact IH].
Qed.

Lemma select_font_spec candidates st :
  select_font candidates st = (Returned (chosen_font candidates), st).
Proof.
  unfold select_font, bind, chosen_font. rewrite try_fonts_spec.
  now destruct (first_loadable candidates).
Qed.

(** *** Files and directories *)

Lemma open_for_writing_state path st : snd (open_for_writing path st) = st.
Proof.
  unfold open_for_writing.
  destruct (decide (path ∈ dirs st)); [reflexivity|].
  destruct (decide (posix.dirname path ∈ dirs st)); [reflexivity|].
  now destruct (files st !! posix.dirname path).
Qed.

Lemma open_for_writing_writable path st :
  writable st path = true -> open_for_writing path st = (Returned tt, st).
Proof.
  unfold writable, open_for_writing. intros H.
  apply andb_prop in H as [H1 H2].
  apply negb_true_iff, bool_decide_eq_false in H1.
  apply bool_decide_eq_true in H2.
  destruct (decide (path ∈ dirs st)); [contradiction|].
  destruct (decide (posix.dirname path ∈ dirs st)); [reflexivity|contradiction].
Qed.

Lemma open_for_writing_refused path st :
  writable st path = false ->
  exists e, open_for_writing path st = (Raised e, st).
Proof.
  unfold writable, open_for_writing. intros H.
  destruct (decide (path ∈ dirs st)) as [Hd|Hd]; [eauto|].
  rewrite (bool_decide_eq_false_2 _ Hd) in H. cbn [negb andb] in H.
  apply bool_decide_eq_false in H.
  destruct (decide (posix.dirname path ∈ dirs st)); [contradiction|].
  destruct (files st !! posix.dirname path); eauto.
Qed.

Lemma write_file_writable path f st :
  writable st path = true ->
  write_file path f st = (Returned tt, set_file path f st).
Proof.
  intros H. unfold write_file, bind.
  now rewrite (open_for_writing_writable path st H).
Qed.

Lemma write_file_refused path f st :
  writable st path = false ->
  exists e, write_file path f st = (Raised e, st).
Proof.
  intros H. unfold write_file, bind.
  destruct (open_for_writing_refused path st H) as [e ->]. eauto.
Qed.

Lemma add_dir_present path st : path ∈ dirs st -> add_dir path st = st.
Proof.
  intros H. destruct st as [pil quotes ds fs out]. unfold add_dir.
  cbn [g_PIL_AVAILABLE g_QUOTES dirs files stdout] in *. f_equal.
  apply subseteq_union_1_L. now apply singleton_subseteq_l.
Qed.

Lemma mkdir_exist_ok_made path st :
  can_mkdir st path = true ->
  mkdir_exist_ok path st = (Returned tt, add_dir path st).
Proof.
  unfold can_mkdir, mkdir_exist_ok. intros H.
  destruct (decide (path ∈ dirs st)) as [Hd|Hd].
  - now rewrite add_dir_present.
  - rewrite (bool_decide_eq_false_2 _ Hd) in H. cbn [orb] in H.
    apply andb_prop in H as [H1 H2]. apply bool_decide_eq_true in H2.
    destruct (files st !! path); [discriminate|].
    destruct (decide (posix.dirname path ∈ dirs st)); [reflexivity|contradiction].
Qed.

Lemma mkdir_exist_ok_refused path st :
  can_mkdir st path = false ->
  exists e, mkdir_exist_ok path st = (Raised e, st).
Proof.
  unfold can_mkdir, mkdir_exist_ok. intros H.
  apply orb_false_elim in H as [H1 H2]. apply bool_decide_eq_false in H1.
  destruct (decide (path ∈ dirs st)); [contradiction|].
  destruct (files st !! path); [eauto|]. cbn [andb] in H2.
  apply bool_decide_eq_false in H2.
  destruct (decide (posix.dirname path ∈ dirs st)); [contradiction|].
  destruct (files st !! posix.dirname path); eauto.
Qed.

(** *** The canvas *)

Lemma draw_lines_canvas font size lines : forall y img,
  im_mode (draw_lines font size lines y img) = im_mode img
  /\ im_size (draw_lines font size lines y img) = im_size img
  /\ im_color (draw_lines font size lines y img) = im_color img
  /\ exists texts,
       im_ops (draw_lines font size lines y img) = im_ops img ++ texts
       /\ forallb is_text texts = true
       /\ length texts = length lines.
Proof.
  induction lines as [|l lines IH]; intros y img.
  - repeat split; auto. exists []. now rewrite app_nil_r.
  - cbn [draw_lines]. destruct (textbbox font l) as [[[b0 b1] b2] b3].
    destruct (IH (y + (b3 - b1 + 6))%Z
                 (draw_op (Text ((size - (b2 - b0)) // 2, y) l font
                                (255, 255, 255)%Z) img))
      as (Hm & Hs & Hc & texts & Hops & Ht & Hl).
    repeat split; auto.
    exists (Text ((size - (b2 - b0)) // 2, y) l font (255, 255, 255)%Z :: texts).
    rewrite Hops. cbn. rewrite <- app_assoc, Ht, Hl. auto.
Qed.

Lemma draw_lines_size font size lines y img :
  im_size (draw_lines font size lines y img) = im_size img.
Proof. apply draw_lines_canvas. Qed.

(** *** The raster renderer, step by step *)

(** With imaging available the call goes through five places where it can
    stop: the canvas, the panel, the text to draw, the format of the file
    and the file itself. *)
Lemma rasterize_spec svg_path png_path size quote st :
  g_PIL_AVAILABLE st = true ->
  rasterize_svg_to_png svg_path png_path size quote st
  = match new_raises "RGB" (size, size) with
    | Some e => (Raised e, st)
    | None =>
        match rectangle_raises (size, size)
                [40; 40; size - 40; size - 40]%Z with
        | Some e => (Raised e, st)
        | None =>
            match text_to_draw quote st with
            | None => (Raised IndexError, st)
            | Some text =>
                match save_raises png_path (size, size) with
                | Some e => (Raised e, st)
                | None =>
                    match open_for_writing png_path st with
                    | (Returned _, _) =>
                        (Returned true,
                         set_file png_path
                           (ImageFile (rendering size text)) st)
                    | (Raised e, _) => (Raised e, st)
                    end
                end
            end
        end
    end.
Proof.
  intros Hpil. unfold rasterize_svg_to_png. unfold bind at 1. unfold get at 1.
  rewrite Hpil. cbn [negb]. unfold bind at 1. unfold Image_new.
  destruct (new_raises "RGB" (size, size)) as [e|]; [reflexivity|].
  unfold ret at 1. unfold bind at 1. rewrite select_font_spec.
  unfold bind at 1. unfold draw_rectangle. cbn [im_size].
  destruct (rectangle_raises (size, size) [40; 40; size - 40; size - 40]%Z)
    as [e|]; [reflexivity|].
  unfold ret at 1. unfold bind at 1.
  assert (Htext :
    match quote with
    | Some quote0 => ret quote0
    | None => bind get (fun st0 => index (g_QUOTES st0) 0)
    end st
    = match text_to_draw quote st with
      | Some text => (Returned text, st)
      | None => (Raised IndexError, st)
      end).
  { destruct quote as [text|]; [reflexivity|].
    unfold bind, get, index, text_to_draw.
    now destruct (g_QUOTES st !! 0). }
  rewrite Htext. destruct (text_to_draw quote st) as [text|]; [|reflexivity].
  destruct (textbbox (chosen_font possible_fonts) (py "A"))
    as [[[b0 b1] b2] b3] eqn:Eb.
  unfold bind at 1. unfold Image_save. rewrite draw_lines_size.
  cbn [im_size draw_op].
  destruct (save_raises png_path (size, size)) as [e|]; [reflexivity|].
  unfold write_file, bind.
  pose proof (open_for_writing_state png_path st) as Hst.
  destruct (open_for_writing png_path st) as [[[]|e] st'] eqn:Eo;
    cbn [snd] in Hst; subst st'; [|reflexivity].
  unfold modify, ret, rendering, bbox_height. rewrite Eb. reflexivity.
Qed.

Lemma rasterize_unavailable svg_path png_path size quote st :
  g_PIL_AVAILABLE st = false ->
  rasterize_svg_to_png svg_path png_path size quote st = (Returned false, st).
Proof.
  intros Hpil. unfold rasterize_svg_to_png, bind, get. now rewrite Hpil.
Qed.

Lemma pillow_accepts_inv size png_path :
  pillow_accepts size png_path = true ->
  new_raises "RGB" (size, size) = None
  /\ rectangle_raises (size, size) [40; 40; size - 40; size - 40]%Z = None
  /\ save_raises png_path (size, size) = None.
Proof.
  unfold pillow_accepts.
  destruct (new_raises "RGB" (size, size)); [discriminate|].
  destruct (rectangle_raises (size, size) [40; 40; size - 40; size - 40]%Z);
    [discriminate|].
  now destruct (save_raises png_path (size, size)).
Qed.

(** The call returns [True] exactly under these conditions, and then the
    file at [png_path] is the rendering of the text. *)
Lemma rasterize_saves svg_path png_path size quote text st :
  g_PIL_AVAILABLE st = true ->
  pillow_accepts size png_path = true ->
  writable st png_path = true ->
  text_to_draw quote st = Some text ->
  rasterize_svg_to_png svg_path png_path size quote st
  = (Returned true, set_file png_path (ImageFile (rendering size text)) st).
Proof.
  intros Hpil Hacc Hw Htext. rewrite rasterize_spec by exact Hpil.
  destruct (pillow_accepts_inv size png_path Hacc) as (-> & -> & ->).
  now rewrite Htext, (open_for_writing_writable png_path st Hw).
Qed.

Lemma rasterize_available svg_path png_path size quote st :
  g_PIL_AVAILABLE st = true ->
  pillow_accepts size png_path = true ->
  writable st png_path = true ->
  rasterize_svg_to_png svg_path png_path size (Some quote) st
  = (Returned true, set_file png_path (ImageFile (rendering size quote)) st).
Proof. intros. now apply rasterize_saves. Qed.

Lemma rasterize_stopped svg_path png_path size quote st :
  g_PIL_AVAILABLE st = true ->
  pillow_accepts size png_path && writable st png_path = false ->
  exists e,
    rasterize_svg_to_png svg_path png_path size quote st = (Raised e, st).
Proof.
  intros Hpil H. rewrite rasterize_spec by exact Hpil.
  unfold pillow_accepts in H.
  destruct (new_raises "RGB" (size, size)); [eauto|].
  destruct (rectangle_raises (size, size) [40; 40; size - 40; size - 40]%Z);
    [eauto|].
  destruct (text_to_draw quote st); [|eauto].
  destruct (save_raises png_path (size, size)); [eauto|].
  cbn [andb] in H.
  destruct (open_for_writing_refused png_path st H) as [e ->]. eauto.
Qed.

(** Whatever happens, the call returns [True] with the file written or
    leaves the state as it was. *)
Lemma rasterize_effect svg_path png_path size quote st :
  (exists text,
     text_to_draw quote st = Some text
     /\ rasterize_svg_to_png svg_path png_path size quote st
        = (Returned true,
           set_file png_path (ImageFile (rendering size text)) st))
  \/ (fst (rasterize_svg_to_png svg_path png_path size quote st)
      <> Returned true
      /\ snd (rasterize_svg_to_png svg_path png_path size quote st) = st).
Proof.
  destruct (g_PIL_AVAILABLE st) eqn:Hpil.
  - rewrite rasterize_spec by exact Hpil.
    destruct (new_raises "RGB" (size, size)); [now right|].
    destruct (rectangle_raises (size, size)
                [40; 40; size - 40; size - 40]%Z); [now right|].
    destruct (text_to_draw quote st) as [text|]; [|now right].
    destruct (save_raises png_path (size, size)); [now right|].
    destruct (open_for_writing png_path st) as [[[]|e] st'];
      [left; eauto|now right].
  - rewrite rasterize_unavailable by exact Hpil. now right.
Qed.

(** *** What is drawn *)

Lemma drawn_lines_draw_lines font size lines : forall y img,
  drawn_lines (draw_lines font size lines y img) = drawn_lines img ++ lines.
Proof.
  induction lines as [|l lines IH]; intros y img.
  - cbn. now rewrite app_nil_r.
  - cbn [draw_lines].
    destruct (textbbox font l) as [[[b0 b1] b2] b3].
    rewrite IH. unfold drawn_lines, draw_op. cbn [im_ops].
    rewrite omap_app. cbn. now rewrite <- app_assoc.
Qed.

Lemma text_tops_draw_lines font size lines : forall y img,
  head (text_tops (draw_lines font size lines y img))
  = match text_tops img, lines with
    | t :: _, _ => Some t
    | [], _ :: _ => Some y
    | [], [] => None
    end.
Proof.
  induction lines as [|l lines IH]; intros y img.
  - cbn. now destruct (text_tops img).
  - cbn [draw_lines].
    destruct (textbbox font l) as [[[b0 b1] b2] b3].
    rewrite IH. unfold text_tops, draw_op. cbn [im_ops].
    rewrite omap_app. cbn.
    now destruct (omap _ (im_ops img)).
Qed.

Lemma drawn_lines_rendering size text :
  drawn_lines (rendering size text) = wrap text max_chars.
Proof. unfold rendering. now rewrite drawn_lines_draw_lines. Qed.

Lemma draw_lines_items font size lines : forall y img,
  exists items,
    text_items (draw_lines font size lines y img) = text_items img ++ items
    /\ map (fun it => it.1.1.2) items = lines
    /\ Forall (fun it =>
                 it.1.1.1.1
                 = (size - bbox_width (textbbox font it.1.1.2)) // 2
                 /\ it.1.2 = font /\ it.2 = (255, 255, 255)%Z) items
    /\ stacked_from font y lines (map (fun it => it.1.1.1.2) items).
Proof.
  induction lines as [|l lines IH]; intros y img.
  - exists []. rewrite app_nil_r. repeat split; auto; try constructor.
    + discriminate.
    + intros i yi l yi' H. discriminate.
  - cbn [draw_lines]. destruct (textbbox font l) as [[[b0 b1] b2] b3] eqn:Eb.
    destruct (IH (y + (b3 - b1 + 6))%Z
                 (draw_op (Text ((size - (b2 - b0)) // 2, y) l font
                                (255, 255, 255)%Z) img))
      as (items & Hitems & Hmap & Hall & Hlen & Hhd & Hchain).
    exists (((size - (b2 - b0)) // 2, y, l, font, (255, 255, 255)%Z) :: items).
    split.
    { rewrite Hitems. unfold text_items, draw_op. cbn [im_ops].
      rewrite omap_app. cbn. now rewrite <- app_assoc. }
    split; [cbn; now rewrite Hmap|].
    split.
    { constructor; [|assumption]. cbn. rewrite Eb. auto. }
    split; [cbn; now rewrite Hlen|].
    split; [reflexivity|].
    intros i yi l0 yi' H1 H2 H3. destruct i as [|i].
    + cbn in H1, H2, H3. injection H1 as <-. injection H2 as <-.
      rewrite Eb. cbn.
      destruct lines as [|l1 lines].
      * destruct items; [discriminate|discriminate].
      * specialize (Hhd l1 lines eq_refl).
        destruct items as [|it items']; [discriminate|].
        cbn in Hhd, H3. congruence.
    + cbn in H1, H2, H3. eapply Hchain; eauto.
Qed.

Lemma rendering_canvas size text :
  im_mode (rendering size text) = "RGB"%string
  /\ im_size (rendering size text) = (size, size)
  /\ im_color (rendering size text) = (15, 23, 42)%Z
  /\ exists texts,
       im_ops (rendering size text)
       = Rectangle [40; 40; size - 40; size - 40]%Z (11, 18, 32)%Z :: texts
       /\ forallb is_text texts = true
       /\ length texts = length (wrap text max_chars).
Proof.
  unfold rendering.
  match goal with
  | |- context [draw_lines ?f ?s ?ls ?y ?img] =>
      destruct (draw_lines_canvas f s ls y img)
        as (Hm & Hs & Hc & texts & Hops & Ht & Hl)
  end.
  rewrite Hm, Hs, Hc, Hops. repeat split; auto.
  exists texts. auto.
Qed.

Lemma text_tops_items img :
  text_tops img = map (fun it => it.1.1.1.2) (text_items img).
Proof.
  unfold text_tops, text_items.
  induction (im_ops img) as [|op ops IH]; [reflexivity|].
  destruct op as [box fill|[x y] t f c]; cbn; [exact IH|].
  now rewrite <- IH.
Qed.

Lemma drawn_lines_items img :
  drawn_lines img = map (fun it => it.1.1.2) (text_items img).
Proof.
  unfold drawn_lines, text_items.
  induction (im_ops img) as [|op ops IH]; [reflexivity|].
  destruct op as [box fill|xy t f c]; cbn; [exact IH|].
  now rewrite <- IH.
Qed.

(** *** The quote table is only read *)

Lemma keeps_quotes_ret {A} (a : A) : keeps_quotes (ret a).
Proof. intros st. reflexivity. Qed.

Lemma keeps_quotes_raise {A} e : keeps_quotes (raise (A := A) e).
Proof. intros st. reflexivity. Qed.

Lemma keeps_quotes_get : keeps_quotes get.
Proof. intros st. reflexivity. Qed.

Lemma keeps_quotes_bind {A B} (m : M A) (k : A -> M B) :
  keeps_quotes m -> (forall a, keeps_quotes (k a)) -> keeps_quotes (bind m k).
Proof.
  intros Hm Hk st. unfold bind. specialize (Hm st).
  destruct (m st) as [[a|e] st'] eqn:E; cbn [snd] in *.
  - now rewrite Hk.
  - exact Hm.
Qed.

Lemma keeps_quotes_modify f :
  (forall st, g_QUOTES (f st) = g_QUOTES st) -> keeps_quotes (modify f).
Proof. intros Hf st. apply Hf. Qed.

Lemma keeps_quotes_index {A} (seq : list A) i : keeps_quotes (index seq i).
Proof. intros st. unfold index. now destruct (seq !! i). Qed.

Lemma keeps_quotes_print line : keeps_quotes (print line).
Proof. now apply keeps_quotes_modify. Qed.

Lemma keeps_quotes_open_for_writing path :
  keeps_quotes (open_for_writing path).
Proof. intros st. now rewrite open_for_writing_state. Qed.

Lemma keeps_quotes_write_file path f : keeps_quotes (write_file path f).
Proof.
  apply keeps_quotes_bind; [apply keeps_quotes_open_for_writing|].
  intros _. now apply keeps_quotes_modify.
Qed.

Lemma keeps_quotes_mkdir_exist_ok path : keeps_quotes (mkdir_exist_ok path).
Proof.
  intros st. unfold mkdir_exist_ok.
  destruct (decide (path ∈ dirs st)); [reflexivity|].
  destruct (files st !! path); [reflexivity|].
  destruct (decide (posix.dirname path ∈ dirs st)); [reflexivity|].
  now destruct (files st !! posix.dirname path).
Qed.

Lemma keeps_quotes_pick_quote r : keeps_quotes (pick_quote r).
Proof.
  apply keeps_quotes_bind; [apply keeps_quotes_get|]. intros st.
  unfold random_choice. destruct (g_QUOTES st).
  - apply keeps_quotes_raise.
  - apply keeps_quotes_index.
Qed.

Lemma keeps_quotes_save_svg svg out_path : keeps_quotes (save_svg svg out_path).
Proof. apply keeps_quotes_write_file. Qed.

Lemma keeps_quotes_rasterize svg_path png_path size quote :
  keeps_quotes (rasterize_svg_to_png svg_path png_path size quote).
Proof.
  intros st.
  destruct (rasterize_effect svg_path png_path size quote st)
    as [(text & _ & ->)|[_ ->]]; reflexivity.
Qed.

Lemma keeps_quotes_main base r ts : keeps_quotes (main base r ts).
Proof.
  unfold main.
  apply keeps_quotes_bind; [apply keeps_quotes_mkdir_exist_ok|]. intros _.
  apply keeps_quotes_bind; [apply keeps_quotes_pick_quote|]. intros quote.
  apply keeps_quotes_bind; [apply keeps_quotes_save_svg|]. intros _.
  apply keeps_quotes_bind; [apply keeps_quotes_print|]. intros _.
  apply keeps_quotes_bind; [apply keeps_quotes_rasterize|]. intros rasterized.
  destruct rasterized; apply keeps_quotes_print.
Qed.

Lemma pick_quote_in_table r st :
  g_QUOTES st = QUOTES ->
  exists quote, pick_quote r st = (Returned quote, st) /\ In quote QUOTES.
Proof.
  intros Hq. unfold pick_quote, bind, get. rewrite Hq.
  unfold random_choice, index.
  set (i := r mod length QUOTES).
  assert (Hi : i < length QUOTES) by (apply Nat.mod_upper_bound; discriminate).
  destruct (QUOTES !! i) as [quote|] eqn:E.
  - exists quote. split; [reflexivity|].
    apply list_elem_of_In. eapply list_elem_of_lookup_2. exact E.
  - apply lookup_ge_None in E. lia.
Qed.

Lemma pick_quote_lookup r st quote :
  g_QUOTES st = QUOTES ->
  QUOTES !! (r mod 10) = Some quote ->
  pick_quote r st = (Returned quote, st).
Proof.
  intros Hq Hl. unfold pick_quote, bind, get. rewrite Hq.
  unfold random_choice, index. change (length QUOTES) with 10.
  change ((py "The only limit to our realization of tomorrow is our doubts of today."
           :: tail QUOTES) !! (r mod 10)) with (QUOTES !! (r mod 10)).
  now rewrite Hl.
Qed.

Lemma quote_of_draw r : exists quote, QUOTES !! (r mod 10) = Some quote.
Proof.
  apply lookup_lt_is_Some. change (length QUOTES) with 10.
  apply Nat.mod_upper_bound. discriminate.
Qed.

End ProgramFacts.

(** * Properties of [main] *)

Section MainFacts.

Context `{PIL : Imaging}.

Lemma writable_dirs st1 st2 path :
  dirs st1 = dirs st2 -> writable st1 path = writable st2 path.
Proof. intros H. unfold writable. now rewrite H. Qed.

Lemma can_mkdir_present st path : path ∈ dirs st -> can_mkdir st path = true.
Proof.
  intros H. unfold can_mkdir. now rewrite (bool_decide_eq_true_2 _ H).
Qed.

(** The outcome of a run, step by step: the directory, the vector
    document, then the bitmap. *)
Lemma main_outcome base r ts st quote :
  g_QUOTES st = QUOTES ->
  QUOTES !! (r mod 10) = Some quote ->
  exists e1 e2 e3,
    main base r ts st
    = if can_mkdir st (out_dir_of base) then
        if writable (add_dir (out_dir_of base) st) (svg_path_of base ts) then
          if g_PIL_AVAILABLE st then
            if pillow_accepts 1080 (png_path_of base ts)
               && writable (add_dir (out_dir_of base) st) (png_path_of base ts)
            then
              (Returned tt,
               add_output (py "Saved PNG to: " ++ py (png_path_of base ts))
                 (set_file (png_path_of base ts)
                    (ImageFile (rendering 1080 quote))
                    (after_svg base ts quote st)))
            else (Raised e3, after_svg base ts quote st)
          else
            (Returned tt,
             add_output
               (py "Pillow not available or rasterization skipped. PNG not created.")
               (after_svg base ts quote st))
        else (Raised e2, add_dir (out_dir_of base) st)
      else (Raised e1, st).
Proof.
  intros Hq Hl. unfold main. fold (out_dir_of base).
  fold (svg_path_of base ts). fold (png_path_of base ts).
  unfold bind at 1.
  destruct (can_mkdir st (out_dir_of base)) eqn:Hmk.
  2: { destruct (mkdir_exist_ok_refused _ _ Hmk) as [e ->].
       now exists e, e, e. }
  rewrite (mkdir_exist_ok_made _ _ Hmk).
  set (sta := add_dir (out_dir_of base) st).
  unfold bind at 1. rewrite (pick_quote_lookup r sta quote Hq Hl).
  unfold bind at 1. unfold save_svg.
  destruct (writable sta (svg_path_of base ts)) eqn:Hsvg.
  2: { destruct (write_file_refused _ (TextFile (make_svg_text_block quote 1080))
                   _ Hsvg) as [e ->].
       now exists e, e, e. }
  rewrite (write_file_writable _ _ _ Hsvg).
  unfold bind at 1. unfold print at 1, modify at 1.
  change (add_output _ (set_file _ _ sta)) with (after_svg base ts quote st).
  unfold bind.
  destruct (g_PIL_AVAILABLE st) eqn:Hpil.
  - assert (Hpil' : g_PIL_AVAILABLE (after_svg base ts quote st) = true)
      by exact Hpil.
    rewrite <- (writable_dirs (after_svg base ts quote st) sta) by reflexivity.
    destruct (pillow_accepts 1080 (png_path_of base ts)
              && writable (after_svg base ts quote st) (png_path_of base ts))
      eqn:Hok.
    + apply andb_prop in Hok as [Hacc Hw].
      rewrite (rasterize_available _ _ _ _ _ Hpil' Hacc Hw).
      now exists IndexError, IndexError, IndexError.
    + destruct (rasterize_stopped (svg_path_of base ts) (png_path_of base ts)
                  1080 (Some quote) _ Hpil' Hok) as [e ->].
      now exists e, e, e.
  - rewrite rasterize_unavailable by exact Hpil.
    now exists IndexError, IndexError, IndexError.
Qed.

(** A run that meets no refusal. *)
Lemma main_run base r ts st :
  g_QUOTES st = QUOTES ->
  can_mkdir st (out_dir_of base) = true ->
  writable (add_dir (out_dir_of base) st) (svg_path_of base ts) = true ->
  (g_PIL_AVAILABLE st = true ->
   pillow_accepts 1080 (png_path_of base ts) = true
   /\ writable (add_dir (out_dir_of base) st) (png_path_of base ts) = true) ->
  exists quote,
    QUOTES !! (r mod 10) = Some quote
    /\ main base r ts st
       = (Returned tt,
          if g_PIL_AVAILABLE st
          then add_output (py "Saved PNG to: " ++ py (png_path_of base ts))
                 (set_file (png_path_of base ts)
                    (ImageFile (rendering 1080 quote))
                    (after_svg base ts quote st))
          else add_output
                 (py "Pillow not available or rasterization skipped. PNG not created.")
                 (after_svg base ts quote st)).
Proof.
  intros Hq Hmk Hsvg Hpng.
  destruct (quote_of_draw r) as [quote Hl]. exists quote.
  split; [exact Hl|].
  destruct (main_outcome base r ts st quote Hq Hl) as (e1 & e2 & e3 & ->).
  rewrite Hmk, Hsvg. destruct (g_PIL_AVAILABLE st); [|reflexivity].
  destruct (Hpng eq_refl) as [-> ->]. reflexivity.
Qed.

(** What a run leaves on the disk, whether it returns or raises. *)
Lemma main_leaves base r ts st quote :
  g_QUOTES st = QUOTES ->
  QUOTES !! (r mod 10) = Some quote ->
  let sta := add_dir (out_dir_of base) st in
  let res := snd (main base r ts st) in
  g_PIL_AVAILABLE res = g_PIL_AVAILABLE st
  /\ dirs res = (if can_mkdir st (out_dir_of base) then dirs sta else dirs st)
  /\ files res
     = if can_mkdir st (out_dir_of base)
          && writable sta (svg_path_of base ts)
       then
         if g_PIL_AVAILABLE st
            && (pillow_accepts 1080 (png_path_of base ts)
                && writable sta (png_path_of base ts))
         then <[png_path_of base ts := ImageFile (rendering 1080 quote)]>
                (<[svg_path_of base ts
                   := TextFile (make_svg_text_block quote 1080)]> (files st))
         else <[svg_path_of base ts
                := TextFile (make_svg_text_block quote 1080)]> (files st)
       else files st.
Proof.
  intros Hq Hl sta res. subst res.
  destruct (main_outcome base r ts st quote Hq Hl) as (e1 & e2 & e3 & ->).
  fold sta.
  destruct (can_mkdir st (out_dir_of base)); [|auto].
  destruct (writable sta (svg_path_of base ts)); [|auto].
  destruct (g_PIL_AVAILABLE st) eqn:Hpil; [|auto].
  destruct (pillow_accepts 1080 (png_path_of base ts)
            && writable sta (png_path_of base ts)); auto.
Qed.

End MainFacts.

(** * Properties of the paths *)

Lemma components_solid (t : str) :
  forallb (fun c => negb (posix.is_slash c)) t = true ->
  posix.components t = [t].
Proof.
  induction t as [|c t IH]; [reflexivity|]. cbn [forallb]. intros H.
  apply andb_prop in H as [Hc Ht]. cbn [posix.components].
  apply negb_true_iff in Hc. now rewrite Hc, (IH Ht).
Qed.

(** A text with no slash that is put after a path text extends its last
    component. *)
Lemma components_app_solid (s t : str) :
  forallb (fun c => negb (posix.is_slash c)) t = true ->
  exists init l,
    posix.components s = init ++ [l]
    /\ posix.components (s ++ t) = init ++ [l ++ t].
Proof.
  intros Ht. induction s as [|c s (init & l & Hs & Hst)].
  - exists [], []. split; [reflexivity|]. cbn [app].
    now rewrite (components_solid t Ht).
  - cbn [app posix.components]. destruct (posix.is_slash c).
    + exists ([] :: init), l. now rewrite Hs, Hst.
    + rewrite Hs, Hst. destruct init as [|i init].
      * now exists [], (c :: l).
      * now exists ((c :: i) :: init), l.
Qed.

Lemma join_snoc (sep : str) (ps : list str) (x : str) :
  exists pre, join sep (ps ++ [x]) = pre ++ x.
Proof.
  induction ps as [|p ps [pre IH]].
  - now exists [].
  - destruct ps as [|p2 ps].
    + exists (p ++ sep). cbn. now rewrite <- app_assoc.
    + exists (p ++ sep ++ pre).
      change (join sep ((p :: p2 :: ps) ++ [x]))
        with (p ++ sep ++ join sep ((p2 :: ps) ++ [x])).
      rewrite IH. now rewrite <- !app_assoc.
Qed.

(** The text of a path joined with a name that ends in an extension of
    three letters ends in this extension. *)
Lemma joinpath_chars_extension (d s : str) (c1 c2 c3 : ascii) :
  let ext := [posix.DOT; c1; c2; c3] in
  posix.root_of (s ++ ext) = [] ->
  forallb (fun c => negb (posix.is_slash c)) ext = true ->
  exists pre, posix.joinpath_chars d (s ++ ext) = pre ++ ext.
Proof.
  intros ext Hroot Hext. unfold posix.joinpath_chars. rewrite Hroot.
  destruct (components_app_solid s ext Hext) as (init & l & _ & Hc).
  unfold posix.parts at 2. rewrite Hc, List.filter_app. cbn [List.filter].
  assert (Hkeep : posix.is_part (l ++ ext) = true).
  { subst ext. now destruct l as [|a [|b l]]. }
  rewrite Hkeep, app_assoc.
  destruct (join_snoc [posix.SLASH]
              (posix.parts d ++ List.filter posix.is_part init) (l ++ ext))
    as [pre Hj].
  exists (posix.root_of d ++ pre ++ l).
  unfold posix.render. rewrite Hj.
  destruct (posix.root_of d) as [|c0 root].
  - destruct (posix.parts d ++ List.filter posix.is_part init);
      cbn [app]; now rewrite <- ?app_assoc.
  - now rewrite <- !app_assoc.
Qed.

Lemma list_ascii_of_string_app (a b : string) :
  list_ascii_of_string (a +:+ b)
  = list_ascii_of_string a ++ list_ascii_of_string b.
Proof.
  induction a as [|c a IH]; [reflexivity|].
  change (String c a +:+ b) with (String c (a +:+ b)).
  cbn [list_ascii_of_string app]. f_equal. exact IH.
Qed.

Lemma string_of_list_ascii_inj (a b : str) :
  string_of_list_ascii a = string_of_list_ascii b -> a = b.
Proof.
  intros H. apply (f_equal list_ascii_of_string) in H.
  now rewrite !list_ascii_of_string_of_list_ascii in H.
Qed.

Lemma svg_png_paths_differ base ts : svg_path_of base ts <> png_path_of base ts.
Proof.
  unfold svg_path_of, png_path_of, posix.joinpath. intros H.
  apply string_of_list_ascii_inj in H.
  rewrite !list_ascii_of_string_app in H.
  change (list_ascii_of_string ".svg")
    with [posix.DOT; "s"%char; "v"%char; "g"%char] in H.
  change (list_ascii_of_string ".png")
    with [posix.DOT; "p"%char; "n"%char; "g"%char] in H.
  rewrite !app_assoc in H.
  destruct (joinpath_chars_extension
              (list_ascii_of_string (out_dir_of base))
              (list_ascii_of_string "quote-" ++ list_ascii_of_string ts)
              "s"%char "v"%char "g"%char eq_refl eq_refl) as [pre1 H1].
  destruct (joinpath_chars_extension
              (list_ascii_of_string (out_dir_of base))
              (list_ascii_of_string "quote-" ++ list_ascii_of_string ts)
              "p"%char "n"%char "g"%char eq_refl eq_refl) as [pre2 H2].
  cbv zeta in H1, H2. rewrite H1, H2 in H.
  apply app_inj_2 in H as [_ H]; [discriminate|reflexivity].
Qed.

(** * The claims *)

Lemma max_chars_pos : 1 <= max_chars.
Proof. unfold max_chars. lia. Qed.

Lemma svg_wrapped_lines quote :
  svg_wrapped quote = join BR (textwrap.wrap quote max_chars).
Proof.
  unfold svg_wrapped, fill. apply replace_char_join.
  apply wrap_no_newline, max_chars_pos.
Qed.

Lemma plain_words_forallb width ws :
  forallb (plain_word width) ws = true -> plain_words width ws.
Proof.
  intros H. apply List.Forall_forall. now apply forallb_forall.
Qed.

Lemma floordiv_2_bounds a : (2 * (a // 2) <= a < 2 * (a // 2) + 2)%Z.
Proof.
  unfold floordiv.
  pose proof (Z.div_mod a 2 ltac:(lia)).
  pose proof (Z.mod_pos_bound a 2 ltac:(lia)). lia.
Qed.

(** C2, amended.  For every quote, no line of the wrap used by both
    renderers is longer than 32 characters; there is no exception for long
    words, which are cut. *)
Theorem wrapped_lines_within_width (quote : str) :
  Forall (fun line => length line <= 32) (textwrap.wrap quote max_chars)
  /\ svg_wrapped quote = join BR (textwrap.wrap quote max_chars).
Proof.
  split; [|apply svg_wrapped_lines].
  apply (wrap_length_le quote max_chars max_chars_pos).
Qed.

(** C2, as stated, fails: a word of 33 characters with no blank in it is not
    placed alone on a line; both renderers cut it after 32 characters. *)
Lemma long_word_is_broken :
  length long_word = 33
  /\ forallb (fun c => negb (isspace c)) long_word = true
  /\ textwrap.wrap long_word max_chars = [repeat "a"%char 32; ["a"%char]]
  /\ ~ In long_word (textwrap.wrap long_word max_chars)
  /\ svg_wrapped long_word = repeat "a"%char 32 ++ BR ++ ["a"%char].
Proof.
  assert (H : textwrap.wrap long_word max_chars
              = [repeat "a"%char 32; ["a"%char]]) by (vm_compute; reflexivity).
  repeat split; try (vm_compute; reflexivity).
  rewrite H. intros [E|[E|[]]]; vm_compute in E; discriminate.
Qed.

(** C3, amended.  For every quote made of words separated by single spaces,
    each word having between 1 and 32 characters, none of them a blank or a
    hyphen, the text embedded in the vector document is the wrapped lines
    separated by the line-break markers, and the same lines separated by
    single spaces instead are exactly the quote. *)
Theorem wrap_round_trip_plain_words (words : list str) (size : Z) :
  forallb (plain_word max_chars) words = true ->
  let quote := join [SPACE] words in
  let lines := textwrap.wrap quote max_chars in
  make_svg_text_block quote size = svg_head size ++ join BR lines ++ svg_tail
  /\ join [SPACE] lines = quote.
Proof.
  intros H quote lines. split.
  - unfold make_svg_text_block. now rewrite svg_wrapped_lines.
  - apply (join_wrap_plain max_chars max_chars_pos).
    now apply plain_words_forallb.
Qed.

(** C3, as stated, fails: where the quote has two spaces at the place the
    line is broken, putting one space back for the line break does not give
    the quote again. *)
Lemma round_trip_loses_spaces :
  svg_wrapped double_spaced_quote
  = py "Small steps every day lead to" ++ BR ++ py "big changes over time."
  /\ textwrap.wrap double_spaced_quote max_chars
     = [py "Small steps every day lead to"; py "big changes over time."]
  /\ join [SPACE] (textwrap.wrap double_spaced_quote max_chars)
     <> double_spaced_quote.
Proof.
  repeat split; try (vm_compute; reflexivity).
  vm_compute. discriminate.
Qed.


Lemma marker_lines_svg_wrapped quote :
  contains BR quote = false ->
  marker_lines (svg_wrapped quote) = textwrap.wrap quote max_chars.
Proof.
  intros H. rewrite svg_wrapped_lines. apply marker_lines_join.
  - apply wrap_nonempty, max_chars_pos.
  - now apply wrap_lines_without_marker.
Qed.

(** The piece of the document from the attributes of the svg element to
    the end of the panel, with the two numerals left open. *)
Lemma svg_canvas_fragment (quote : str) (size : Z) :
  infix (py " width=" ++ dq ++ str_of_int size ++ py "px" ++ dq
         ++ py " height=" ++ dq ++ str_of_int size ++ py "px" ++ dq
         ++ py " viewBox=" ++ dq ++ py "0 0 " ++ str_of_int size ++ py " "
         ++ str_of_int size ++ dq ++ py ">" ++ nl
         ++ py "  <rect width=" ++ q "100%" ++ py " height=" ++ q "100%"
         ++ py " fill=" ++ q "#0f172a" ++ py " />" ++ nl
         ++ py "  <rect x=" ++ q "40" ++ py " y=" ++ q "40"
         ++ py " width=" ++ dq ++ str_of_int (size - 80) ++ dq
         ++ py " height=" ++ dq ++ str_of_int (size - 80) ++ dq
         ++ py " rx=" ++ q "40" ++ py " ry=" ++ q "40"
         ++ py " fill=" ++ q "#0b1220" ++ py " opacity=" ++ q "0.9"
         ++ py " />" ++ nl)
        (make_svg_text_block quote size).
Proof.
  exists (svg_xml_decl ++ nl ++ py "<svg xmlns=" ++ q "http://www.w3.org/2000/svg").
  exists (svg_group_open ++ nl ++ svg_foreign_open size ++ nl
          ++ svg_body_open ++ nl ++ svg_flex_open ++ nl ++ py "          <div>"
          ++ svg_wrapped quote ++ svg_tail).
  unfold make_svg_text_block, svg_head, svg_open, svg_background, svg_panel.
  repeat rewrite <- app_assoc. reflexivity.
Qed.

(** C8.  For every size and quote the document declares a canvas of size
    by size: the width, the height and the view box of the svg element are
    numerals that read back as [size].  It holds the background rectangle
    over 100% of both axes, and then the panel at (40, 40) whose width and
    height are numerals that read back as [size - 80], with corner radius 40
    on both axes and opacity 0.9: the panel is inset by 40 on all four
    sides.  For the size 1080 the numerals are 1080 and 1000. *)
Theorem svg_declares_canvas_and_panel (quote : str) (size : Z) :
  (exists w p : str,
     int_of_str w = Some size
     /\ int_of_str p = Some (size - 80)%Z
     /\ (40 + (size - 80) + 40 = size)%Z
     /\ infix (py " width=" ++ dq ++ w ++ py "px" ++ dq
               ++ py " height=" ++ dq ++ w ++ py "px" ++ dq
               ++ py " viewBox=" ++ dq ++ py "0 0 " ++ w ++ py " " ++ w ++ dq
               ++ py ">" ++ nl
               ++ py "  <rect width=" ++ q "100%" ++ py " height=" ++ q "100%"
               ++ py " fill=" ++ q "#0f172a" ++ py " />" ++ nl
               ++ py "  <rect x=" ++ q "40" ++ py " y=" ++ q "40"
               ++ py " width=" ++ dq ++ p ++ dq
               ++ py " height=" ++ dq ++ p ++ dq
               ++ py " rx=" ++ q "40" ++ py " ry=" ++ q "40"
               ++ py " fill=" ++ q "#0b1220" ++ py " opacity=" ++ q "0.9"
               ++ py " />" ++ nl)
              (make_svg_text_block quote size))
  /\ infix (py " width=" ++ q "1080px" ++ py " height=" ++ q "1080px"
            ++ py " viewBox=" ++ q "0 0 1080 1080" ++ py ">" ++ nl
            ++ py "  <rect width=" ++ q "100%" ++ py " height=" ++ q "100%"
            ++ py " fill=" ++ q "#0f172a" ++ py " />" ++ nl
            ++ py "  <rect x=" ++ q "40" ++ py " y=" ++ q "40"
            ++ py " width=" ++ q "1000" ++ py " height=" ++ q "1000"
            ++ py " rx=" ++ q "40" ++ py " ry=" ++ q "40"
            ++ py " fill=" ++ q "#0b1220" ++ py " opacity=" ++ q "0.9"
            ++ py " />" ++ nl)
           (make_svg_text_block quote 1080).
Proof.
  split.
  - exists (str_of_int size), (str_of_int (size - 80)).
    split; [apply int_of_str_of_int|]. split; [apply int_of_str_of_int|].
    split; [lia|]. apply svg_canvas_fragment.
  - exact (svg_canvas_fragment quote 1080).
Qed.

Section Claims.

Context `{PIL : Imaging}.

Lemma save_svg_state svg out_path st :
  snd (save_svg svg out_path st) = st
  \/ (writable st out_path = true
      /\ snd (save_svg svg out_path st) = set_file out_path (TextFile svg) st).
Proof.
  unfold save_svg. destruct (writable st out_path) eqn:Hw.
  - right. split; [reflexivity|]. now rewrite write_file_writable.
  - left. now destruct (write_file_refused out_path (TextFile svg) st Hw)
      as [e ->].
Qed.

(** C1, amended.  For every quote that does not hold the text of the
    line-break marker, and a call of the raster renderer that the library
    and the disk let through, the lines read back from the text embedded in
    the vector document, cut at the markers, are the lines the raster
    renderer draws, one by one and in the same order; both are the wrap of
    the quote at 32. *)
Theorem wrapped_lines_agree (st : State) (svg_path png_path : string)
    (size raster_size : Z) (quote : str) :
  contains BR quote = false ->
  g_PIL_AVAILABLE st = true ->
  pillow_accepts raster_size png_path = true ->
  writable st png_path = true ->
  exists img st',
    rasterize_svg_to_png svg_path png_path raster_size (Some quote) st
      = (Returned true, st')
    /\ files st' !! png_path = Some (ImageFile img)
    /\ make_svg_text_block quote size
       = svg_head size ++ svg_wrapped quote ++ svg_tail
    /\ marker_lines (svg_wrapped quote) = drawn_lines img
    /\ drawn_lines img = textwrap.wrap quote max_chars
    /\ svg_wrapped quote = join BR (drawn_lines img).
Proof.
  intros Hq Hpil Hacc Hw. eexists _, _.
  split; [now apply rasterize_available|].
  split; [apply lookup_insert_eq|].
  split; [reflexivity|].
  rewrite drawn_lines_rendering.
  split; [now apply marker_lines_svg_wrapped|].
  split; [reflexivity|apply svg_wrapped_lines].
Qed.

(** C4.  When the imaging flag of the state is false, the raster renderer
    returns [False] and leaves the whole state as it was, whatever its
    arguments. *)
Theorem rasterize_skipped_without_imaging (st : State)
    (svg_path png_path : string) (size : Z) (quote : option str) :
  g_PIL_AVAILABLE st = false ->
  rasterize_svg_to_png svg_path png_path size quote st = (Returned false, st).
Proof. apply rasterize_unavailable. Qed.

(** C5.  For a quote wrapped into n lines and the reference line height
    line_h measured on the selected font, the block height is
    line_h * n + 6 * (n - 1) and the first line is drawn with its top at
    (size - total_h) // 2, the quotient rounded down; this for every size
    and path the library accepts and every quote, when the file can be
    written. *)
Theorem raster_block_height_and_top (st : State)
    (svg_path png_path : string) (size : Z) (quote : str) :
  g_PIL_AVAILABLE st = true ->
  pillow_accepts size png_path = true ->
  writable st png_path = true ->
  exists font img st',
    select_font possible_fonts st = (Returned font, st)
    /\ rasterize_svg_to_png svg_path png_path size (Some quote) st
       = (Returned true, st')
    /\ files st' !! png_path = Some (ImageFile img)
    /\ let n := Z.of_nat (length (textwrap.wrap quote max_chars)) in
       let line_h := bbox_height (textbbox font (py "A")) in
       let total_h := (line_h * n + 6 * (n - 1))%Z in
       let y := (size - total_h) // 2 in
       head (text_tops img) = (if (n =? 0)%Z then None else Some y)
       /\ (2 * y <= size - total_h < 2 * y + 2)%Z.
Proof.
  intros Hpil Hacc Hw. eexists _, _, _.
  split; [apply select_font_spec|].
  split; [now apply rasterize_available|].
  split; [apply lookup_insert_eq|].
  cbv zeta. split; [|apply floordiv_2_bounds].
  unfold rendering. rewrite text_tops_draw_lines. cbn.
  replace ((Z.of_nat (length (wrap quote max_chars)) - 1) * 6)%Z
    with (6 * (Z.of_nat (length (wrap quote max_chars)) - 1))%Z by lia.
  now destruct (wrap quote max_chars).
Qed.

(** C6.  Every quote [pick_quote] returns is one of the ten entries of the
    table, and no operation of the program changes the table. *)
Theorem picked_quote_in_table (st : State) (r : nat) :
  g_QUOTES st = QUOTES ->
  length QUOTES = 10
  /\ (exists quote,
        pick_quote r st = (Returned quote, st) /\ In quote QUOTES)
  /\ (forall svg out_path,
        g_QUOTES (snd (save_svg svg out_path st)) = QUOTES)
  /\ (forall svg_path png_path size quote,
        g_QUOTES (snd (rasterize_svg_to_png svg_path png_path size quote st))
        = QUOTES)
  /\ (forall base r' ts, g_QUOTES (snd (main base r' ts st)) = QUOTES).
Proof.
  intros Hq. split; [reflexivity|].
  split; [now apply pick_quote_in_table|].
  repeat split; intros; rewrite <- Hq.
  - apply keeps_quotes_save_svg.
  - apply keeps_quotes_rasterize.
  - apply keeps_quotes_main.
Qed.



(** C10.  Called without a quote, with imaging available, the raster
    renderer draws the first entry of the table, in its three lines,
    whatever document was saved before at [svg_path]; when that document
    was written it is still there after the call. *)
Theorem rasterize_without_quote_draws_first_entry (st : State)
    (svg_path png_path : string) (size : Z) (other : str) :
  g_PIL_AVAILABLE st = true ->
  g_QUOTES st = QUOTES ->
  pillow_accepts size png_path = true ->
  writable st png_path = true ->
  let first_entry :=
    py "The only limit to our realization of tomorrow is our doubts of today."
  in
  let st1 := snd (save_svg (make_svg_text_block other size) svg_path st) in
  exists img st',
    rasterize_svg_to_png svg_path png_path size None st1 = (Returned true, st')
    /\ rasterize_svg_to_png svg_path png_path size (Some first_entry) st1
       = (Returned true, st')
    /\ files st' !! png_path = Some (ImageFile img)
    /\ drawn_lines img
       = [py "The only limit to our"; py "realization of tomorrow is our";
          py "doubts of today."]
    /\ drawn_lines img = textwrap.wrap first_entry max_chars
    /\ head QUOTES = Some first_entry
    /\ (writable st svg_path = true -> svg_path <> png_path ->
        files st' !! svg_path
        = Some (TextFile (make_svg_text_block other size))).
Proof.
  intros Hpil Hq Hacc Hw first_entry st1.
  assert (Hst1 : g_PIL_AVAILABLE st1 = true /\ g_QUOTES st1 = QUOTES
                 /\ dirs st1 = dirs st).
  { subst st1.
    destruct (save_svg_state (make_svg_text_block other size) svg_path st)
      as [->|[_ ->]]; auto. }
  destruct Hst1 as (Hpil1 & Hq1 & Hd1).
  assert (Hw1 : writable st1 png_path = true).
  { now rewrite (writable_dirs st1 st). }
  assert (Htext : text_to_draw None st1 = Some first_entry).
  { unfold text_to_draw. now rewrite Hq1. }
  eexists _, _.
  split; [now apply (rasterize_saves _ _ _ None first_entry)|].
  split; [now apply rasterize_available|].
  split; [apply lookup_insert_eq|].
  split; [rewrite drawn_lines_rendering; vm_compute; reflexivity|].
  split; [apply drawn_lines_rendering|].
  split; [reflexivity|].
  intros Hsvg Hne. cbn [files set_file].
  rewrite lookup_insert_ne by congruence. subst st1. unfold save_svg.
  rewrite write_file_writable by exact Hsvg. apply lookup_insert_eq.
Qed.

End Claims.

(** C1, as stated, fails: the quote a<br/>b is one line for the raster
    renderer, which draws it as it is, while the text embedded in the vector
    document holds one marker and so two lines. *)
Lemma marker_in_quote_splits_line :
  contains BR marker_quote = true
  /\ svg_wrapped marker_quote = py "a<br/>b"
  /\ marker_lines (svg_wrapped marker_quote) = [py "a"; py "b"]
  /\ exists img st',
       rasterize_svg_to_png (PIL := demo_imaging) "/srv/app/quote.svg"
         "/srv/app/quote.png" 1080 (Some marker_quote) (demo_disk true)
       = (Returned true, st')
       /\ files st' !! "/srv/app/quote.png" = Some (ImageFile img)
       /\ drawn_lines img = [py "a<br/>b"]
       /\ marker_lines (svg_wrapped marker_quote) <> drawn_lines img.
Proof.
  split; [reflexivity|]. split; [vm_compute; reflexivity|].
  split; [vm_compute; reflexivity|].
  eexists _, _.
  split; [apply (rasterize_available (PIL := demo_imaging));
          vm_compute; reflexivity|].
  split; [apply lookup_insert_eq|].
  rewrite drawn_lines_rendering.
  split; [vm_compute; reflexivity|].
  vm_compute. discriminate.
Qed.

(** * Concrete runs *)

Example sixth_quote_words_joined :
  QUOTES !! 5 = Some (join [SPACE] sixth_quote_words).
Proof. reflexivity. Qed.

Example numerals_read_back :
  int_of_str (py "1080") = Some 1080%Z
  /\ int_of_str (py "-5") = Some (-5)%Z
  /\ int_of_str [] = None
  /\ int_of_str (py "-") = None
  /\ int_of_str (py "10px") = None
  /\ str_of_int 1080 = py "1080"
  /\ str_of_int (-5) = py "-5"
  /\ str_of_int 0 = py "0".
Proof. repeat split; vm_compute; reflexivity. Qed.

(** The paths of a run, for a script in [/srv/app] and for a script in the
    root directory. *)
Example paths_of_a_run :
  out_dir_of "/srv/app" = "/srv/app/outputs"%string
  /\ svg_path_of "/srv/app" "20260101-120000"
     = "/srv/app/outputs/quote-20260101-120000.svg"%string
  /\ png_path_of "/srv/app" "20260101-120000"
     = "/srv/app/outputs/quote-20260101-120000.png"%string
  /\ out_dir_of "/" = "/outputs"%string
  /\ posix.dirname (svg_path_of "/" "20260101-120000") = "/outputs"%string.
Proof. repeat split; vm_compute; reflexivity. Qed.

(** Calls the raster renderer does not survive, with a library that
    refuses what Pillow refuses: a negative size, a size so small that the
    panel has its second corner before the first, a file name with no known
    extension, a directory that does not exist.  The smallest size it
    takes is 80. *)
Example rasterize_refusals :
  let quote := Some (py "Progress, not perfection.") in
  let run size png_path :=
    rasterize_svg_to_png (PIL := demo_imaging) "/srv/app/quote.svg" png_path
      size quote (demo_disk true) in
  run (-5)%Z "/srv/app/quote.png"%string
  = (Raised (OtherException "ValueError"), demo_disk true)
  /\ run 79%Z "/srv/app/quote.png"%string
     = (Raised (OtherException "ValueError"), demo_disk true)
  /\ run 1080%Z "/srv/app/quote.bitmap"%string
     = (Raised (OtherException "ValueError"), demo_disk true)
  /\ run 1080%Z "/srv/app/outputs/quote.png"%string
     = (Raised FileNotFoundError, demo_disk true)
  /\ fst (run 80%Z "/srv/app/quote.png"%string) = Returned true.
Proof. repeat split; vm_compute; reflexivity. Qed.

(** Two states with the same globals and different directories: the same
    call returns in one and raises in the other. *)
Example rasterize_result_depends_on_directories :
  let st1 := demo_disk true in
  let st2 : State (PIL := demo_imaging) := module_init true ∅ ∅ in
  let run := rasterize_svg_to_png "/srv/app/quote.svg" "/srv/app/quote.png"
               1080 (Some (py "Progress, not perfection.")) in
  g_PIL_AVAILABLE st1 = g_PIL_AVAILABLE st2
  /\ g_QUOTES st1 = g_QUOTES st2
  /\ fst (run st1) = Returned true
  /\ run st2 = (Raised FileNotFoundError, st2).
Proof. repeat split; vm_compute; reflexivity. Qed.

(** Runs of [main] that stop at [save_svg]: the svg path is a directory. *)
Example main_refused_at_the_vector_document :
  let st : State (PIL := demo_imaging) :=
    module_init true
      {["/"%string; "/srv"%string; "/srv/app"%string;
        "/srv/app/outputs"%string;
        "/srv/app/outputs/quote-20260101-120000.svg"%string]} ∅ in
  main "/srv/app" 25 "20260101-120000" st = (Raised IsADirectoryError, st).
Proof. vm_compute. reflexivity. Qed.

Lemma wrapped_lines_agree_witness :
  let quote := join [SPACE] sixth_quote_words in
  contains BR quote = false
  /\ g_PIL_AVAILABLE (demo_disk true) = true
  /\ pillow_accepts (PIL := demo_imaging) 1080 "/srv/app/quote.png" = true
  /\ writable (demo_disk true) "/srv/app/quote.png" = true
  /\ exists img st',
       rasterize_svg_to_png "/srv/app/quote.svg" "/srv/app/quote.png" 1080
         (Some quote) (demo_disk true)
         = (Returned true, st')
       /\ files st' !! "/srv/app/quote.png" = Some (ImageFile img)
       /\ marker_lines (svg_wrapped quote) = drawn_lines img
       /\ drawn_lines img
          = [py "Start where you are. Use what";
             py "you have. Do what you can."].
Proof.
  intros quote.
  assert (H1 : contains BR quote = false) by (vm_compute; reflexivity).
  assert (H2 : g_PIL_AVAILABLE (demo_disk true) = true) by reflexivity.
  assert (H3 : pillow_accepts (PIL := demo_imaging) 1080 "/srv/app/quote.png"
               = true) by (vm_compute; reflexivity).
  assert (H4 : writable (demo_disk true) "/srv/app/quote.png" = true)
    by (vm_compute; reflexivity).
  repeat (split; [assumption|]).
  destruct (wrapped_lines_agree (demo_disk true) "/srv/app/quote.svg"
              "/srv/app/quote.png" 1080 1080 quote H1 H2 H3 H4)
    as (img & st' & Hrun & Hfile & _ & Hlines & Hwrap & _).
  exists img, st'.
  split; [exact Hrun|]. split; [exact Hfile|]. split; [exact Hlines|].
  rewrite Hwrap. vm_compute. reflexivity.
Defined.

Lemma wrap_round_trip_plain_words_witness :
  forallb (plain_word max_chars) sixth_quote_words = true
  /\ (let quote := join [SPACE] sixth_quote_words in
      let lines := textwrap.wrap quote max_chars in
      make_svg_text_block quote 1080
        = svg_head 1080 ++ join BR lines ++ svg_tail
      /\ join [SPACE] lines = quote).
Proof.
  split; [reflexivity|].
  apply (wrap_round_trip_plain_words sixth_quote_words 1080).
  reflexivity.
Defined.

Lemma rasterize_skipped_without_imaging_witness :
  g_PIL_AVAILABLE (demo_disk false) = false
  /\ rasterize_svg_to_png "/srv/app/quote.svg" "/srv/app/quote.png" 1080
       (Some (py "Progress, not perfection.")) (demo_disk false)
     = (Returned false, demo_disk false).
Proof.
  split; [reflexivity|].
  apply (rasterize_skipped_without_imaging (demo_disk false)).
  reflexivity.
Defined.

Lemma raster_block_height_and_top_witness :
  g_PIL_AVAILABLE (demo_disk true) = true
  /\ pillow_accepts (PIL := demo_imaging) 1080 "/srv/app/quote.png" = true
  /\ writable (demo_disk true) "/srv/app/quote.png" = true
  /\ exists img st',
       rasterize_svg_to_png "/srv/app/quote.svg" "/srv/app/quote.png" 1080
         (Some (join [SPACE] sixth_quote_words)) (demo_disk true)
       = (Returned true, st')
       /\ files st' !! "/srv/app/quote.png" = Some (ImageFile img)
       /\ length (textwrap.wrap (join [SPACE] sixth_quote_words) max_chars)
          = 2
       /\ bbox_height (textbbox (Imaging := demo_imaging)
                         "/Library/Fonts/Arial.ttf"%string (py "A")) = 48%Z
       /\ head (text_tops img) = Some ((1080 - (48 * 2 + 6 * (2 - 1))) // 2)
       /\ head (text_tops img) = Some 489%Z.
Proof.
  assert (H1 : g_PIL_AVAILABLE (demo_disk true) = true) by reflexivity.
  assert (H2 : pillow_accepts (PIL := demo_imaging) 1080 "/srv/app/quote.png"
               = true) by (vm_compute; reflexivity).
  assert (H3 : writable (demo_disk true) "/srv/app/quote.png" = true)
    by (vm_compute; reflexivity).
  repeat (split; [assumption|]).
  destruct (raster_block_height_and_top (demo_disk true) "/srv/app/quote.svg"
              "/srv/app/quote.png" 1080 (join [SPACE] sixth_quote_words)
              H1 H2 H3)
    as (font & img & st' & Hfont & Hrun & Hfile & Htop & _).
  assert (Ef : font = "/Library/Fonts/Arial.ttf"%string).
  { vm_compute in Hfont. now injection Hfont as <-. }
  subst font. exists img, st'.
  split; [exact Hrun|]. split; [exact Hfile|].
  split; [vm_compute; reflexivity|]. split; [reflexivity|].
  split; exact Htop.
Defined.

Lemma picked_quote_in_table_witness :
  g_QUOTES (demo_disk true) = QUOTES
  /\ length QUOTES = 10
  /\ (exists quote,
        pick_quote 25 (demo_disk true) = (Returned quote, demo_disk true)
        /\ In quote QUOTES).
Proof.
  split; [reflexivity|].
  destruct (picked_quote_in_table (demo_disk true) 25 eq_refl)
    as (Hlen & Hpick & _).
  split; [exact Hlen|exact Hpick].
Defined.



Lemma rasterize_without_quote_draws_first_entry_witness :
  g_PIL_AVAILABLE (demo_disk true) = true
  /\ g_QUOTES (demo_disk true) = QUOTES
  /\ pillow_accepts (PIL := demo_imaging) 1080 "/srv/app/quote.png" = true
  /\ writable (demo_disk true) "/srv/app/quote.png" = true
  /\ (let first_entry :=
        py "The only limit to our realization of tomorrow is our doubts of today."
      in
      let st1 :=
        snd (save_svg (make_svg_text_block (py "Your only limit is you.") 1080)
                      "/srv/app/quote.svg" (demo_disk true)) in
      exists img st',
        rasterize_svg_to_png "/srv/app/quote.svg" "/srv/app/quote.png" 1080
          None st1 = (Returned true, st')
        /\ files st' !! "/srv/app/quote.png" = Some (ImageFile img)
        /\ drawn_lines img
           = [py "The only limit to our";
              py "realization of tomorrow is our"; py "doubts of today."]
        /\ files st' !! "/srv/app/quote.svg"
           = Some (TextFile (make_svg_text_block
                               (py "Your only limit is you.") 1080))).
Proof.
  assert (H1 : g_PIL_AVAILABLE (demo_disk true) = true) by reflexivity.
  assert (H2 : g_QUOTES (demo_disk true) = QUOTES) by reflexivity.
  assert (H3 : pillow_accepts (PIL := demo_imaging) 1080 "/srv/app/quote.png"
               = true) by (vm_compute; reflexivity).
  assert (H4 : writable (demo_disk true) "/srv/app/quote.png" = true)
    by (vm_compute; reflexivity).
  repeat (split; [assumption|]).
  destruct (rasterize_without_quote_draws_first_entry (demo_disk true)
              "/srv/app/quote.svg" "/srv/app/quote.png" 1080
              (py "Your only limit is you.") H1 H2 H3 H4)
    as (img & st' & Hrun & _ & Hfile & Hlines & _ & _ & Hsvg).
  exists img, st'.
  split; [exact Hrun|]. split; [exact Hfile|]. split; [exact Hlines|].
  apply Hsvg; [vm_compute; reflexivity|discriminate].
Defined.

(** * Further results *)

(** X1.  Wrapping keeps every character of the quote that is not blank, in
    the same order: only blanks are dropped or turned into spaces. *)
Theorem wrap_keeps_nonblank_characters (quote : str) :
  nonblank (concat (textwrap.wrap quote max_chars)) = nonblank quote.
Proof. apply nonblank_wrap, max_chars_pos. Qed.

(** X2.  No wrapped line is empty. *)
Theorem wrapped_lines_nonempty (quote : str) :
  Forall (fun line => line <> []) (textwrap.wrap quote max_chars).
Proof. apply wrap_nonempty, max_chars_pos. Qed.

(** X3.  A quote of at most 32 characters whose only whitespace is the
    space and which does not end with a blank is a single line, the quote
    itself, and the vector document holds it unchanged. *)
Theorem short_quote_is_one_line (quote : str) (c : ascii) (size : Z) :
  forallb tidy quote = true ->
  length quote <= 32 ->
  last quote = Some c ->
  isspace c = false ->
  textwrap.wrap quote max_chars = [quote]
  /\ make_svg_text_block quote size = svg_head size ++ quote ++ svg_tail.
Proof.
  intros Htidy Hlen Hlast Hc.
  assert (H : textwrap.wrap quote max_chars = [quote]).
  { apply (wrap_single_line quote max_chars c); auto.
    apply List.Forall_forall. now apply forallb_forall. }
  split; [exact H|].
  unfold make_svg_text_block. now rewrite svg_wrapped_lines, H.
Qed.

(** X4.  Wrapping does not tell the kinds of whitespace apart: the lines are
    the same when the tabs of the quote are first expanded to spaces and
    every other whitespace character is replaced by a space. *)
Theorem wrap_sees_whitespace_as_spaces (quote : str) :
  textwrap.wrap (translate_whitespace (expandtabs 8 quote)) max_chars
  = textwrap.wrap quote max_chars.
Proof. apply (wrap_munge quote max_chars). Qed.

(** X5.  The only whitespace character a wrapped line can hold is the
    space: no tab, newline, vertical tab, form feed or carriage return. *)
Theorem wrapped_lines_hold_only_spaces (quote : str) (line : str) (c : ascii) :
  In line (textwrap.wrap quote max_chars) ->
  In c line ->
  is_whitespace c = true ->
  c = SPACE.
Proof.
  intros Hline Hc Hws.
  pose proof (wrap_all_tidy quote max_chars max_chars_pos) as H.
  rewrite List.Forall_forall in H. specialize (H line Hline).
  rewrite List.Forall_forall in H. now apply tidy_whitespace; [apply H|].
Qed.

(** X15.  The vector document starts with the XML declaration and ends
    with the closing tag of the document.  It holds the text container at
    (80, 120); the width and the height of the container are numerals that
    read back as [size - 160] and [size - 240], so that the container keeps
    80 free on its left and right and 120 above and below. *)
Theorem svg_text_container (quote : str) (size : Z) :
  let doc := make_svg_text_block quote size in
  (exists rest,
     doc = py "<?xml version=" ++ q "1.0" ++ py " encoding=" ++ q "UTF-8"
           ++ py "?>" ++ nl ++ rest)
  /\ (exists w h : str,
        int_of_str w = Some (size - 160)%Z
        /\ int_of_str h = Some (size - 240)%Z
        /\ (80 + (size - 160) + 80 = size)%Z
        /\ (120 + (size - 240) + 120 = size)%Z
        /\ infix (py "    <foreignObject x=" ++ q "80" ++ py " y=" ++ q "120"
                  ++ py " width=" ++ dq ++ w ++ dq
                  ++ py " height=" ++ dq ++ h ++ dq ++ py ">" ++ nl) doc)
  /\ (exists before, doc = before ++ py "</svg>" ++ nl).
Proof.
  cbv zeta. unfold make_svg_text_block.
  split; [|split].
  - eexists. unfold svg_head, svg_xml_decl.
    repeat rewrite <- app_assoc. reflexivity.
  - exists (str_of_int (size - 160)), (str_of_int (size - 240)).
    split; [apply int_of_str_of_int|]. split; [apply int_of_str_of_int|].
    split; [lia|]. split; [lia|].
    exists (svg_xml_decl ++ nl ++ svg_open size ++ nl ++ svg_background ++ nl
            ++ svg_panel size ++ nl ++ svg_group_open ++ nl).
    exists (svg_body_open ++ nl ++ svg_flex_open ++ nl ++ py "          <div>"
            ++ svg_wrapped quote ++ svg_tail).
    unfold svg_head, svg_foreign_open.
    repeat rewrite <- app_assoc. reflexivity.
  - exists (svg_head size ++ svg_wrapped quote
            ++ py "</div>" ++ nl ++ py "        </div>" ++ nl
            ++ py "      </body>" ++ nl ++ py "    </foreignObject>" ++ nl
            ++ py "  </g>" ++ nl).
    unfold svg_tail. repeat rewrite <- app_assoc. reflexivity.
Qed.

(** X16.  The two files of a run never coincide: whatever the directory
    and the clock reading, the path of the vector document and the path of
    the bitmap are different texts. *)
Theorem svg_and_png_paths_differ (base ts : string) :
  posix.joinpath (posix.joinpath base "outputs") ("quote-" +:+ ts +:+ ".svg")
  <> posix.joinpath (posix.joinpath base "outputs")
       ("quote-" +:+ ts +:+ ".png").
Proof. apply svg_png_paths_differ. Qed.

Section FurtherResults.

Context `{PIL : Imaging}.

(** X6.  For a quote made of whitespace only, the empty quote included,
    there is no line: the inner block of the vector document is empty, and
    the raster renderer, when the library and the disk let the call
    through, still returns [True] and saves an image that holds the panel
    and no text. *)
Theorem blank_quote_draws_nothing (st : State) (svg_path png_path : string)
    (size raster_size : Z) (quote : str) :
  forallb is_whitespace quote = true ->
  g_PIL_AVAILABLE st = true ->
  pillow_accepts raster_size png_path = true ->
  writable st png_path = true ->
  textwrap.wrap quote max_chars = []
  /\ make_svg_text_block quote size = svg_head size ++ svg_tail
  /\ exists img st',
       rasterize_svg_to_png svg_path png_path raster_size (Some quote) st
       = (Returned true, st')
       /\ files st' !! png_path = Some (ImageFile img)
       /\ im_ops img
          = [Rectangle [40; 40; raster_size - 40; raster_size - 40]%Z
                       (11, 18, 32)%Z].
Proof.
  intros Hws Hpil Hacc Hw.
  assert (H : textwrap.wrap quote max_chars = []).
  { apply wrap_whitespace_only; [apply max_chars_pos|].
    apply List.Forall_forall. now apply forallb_forall. }
  split; [exact H|]. split.
  - unfold make_svg_text_block. now rewrite svg_wrapped_lines, H.
  - eexists _, _. split; [now apply rasterize_available|].
    split; [apply lookup_insert_eq|].
    unfold rendering. now rewrite H.
Qed.

(** X7.  When the call goes through, the saved image is an RGB canvas of
    size by size pixels with background (15, 23, 42); the first thing
    painted is the rectangle from (40, 40) to (size - 40, size - 40) in
    (11, 18, 32), and after it comes one text operation for each wrapped
    line and nothing else. *)
Theorem raster_canvas_and_panel (st : State) (svg_path png_path : string)
    (size : Z) (quote : str) :
  g_PIL_AVAILABLE st = true ->
  pillow_accepts size png_path = true ->
  writable st png_path = true ->
  exists img st' texts,
    rasterize_svg_to_png svg_path png_path size (Some quote) st
    = (Returned true, st')
    /\ files st' !! png_path = Some (ImageFile img)
    /\ im_mode img = "RGB"%string
    /\ im_size img = (size, size)
    /\ im_color img = (15, 23, 42)%Z
    /\ im_ops img
       = Rectangle [40; 40; size - 40; size - 40]%Z (11, 18, 32)%Z :: texts
    /\ forallb is_text texts = true
    /\ length texts = length (textwrap.wrap quote max_chars).
Proof.
  intros Hpil Hacc Hw.
  destruct (rendering_canvas size quote)
    as (Hm & Hs & Hc & texts & Hops & Ht & Hl).
  eexists (rendering size quote), _, texts.
  split; [now apply rasterize_available|].
  split; [apply lookup_insert_eq|]. auto 10.
Qed.

(** X8.  When the call goes through, every line is drawn in white with the
    selected font, its left edge at (size - w) // 2 for its own measured
    width w, and each line after the first has its top 6 below the bottom
    of the line before: the top before plus the measured height of the line
    before plus 6. *)
Theorem raster_lines_centered_and_stacked (st : State)
    (svg_path png_path : string) (size : Z) (quote : str) :
  g_PIL_AVAILABLE st = true ->
  pillow_accepts size png_path = true ->
  writable st png_path = true ->
  exists font img st',
    select_font possible_fonts st = (Returned font, st)
    /\ rasterize_svg_to_png svg_path png_path size (Some quote) st
       = (Returned true, st')
    /\ files st' !! png_path = Some (ImageFile img)
    /\ drawn_lines img = textwrap.wrap quote max_chars
    /\ Forall (fun '(x, _, text, text_font, fill) =>
                 x = (size - bbox_width (textbbox font text)) // 2
                 /\ text_font = font /\ fill = (255, 255, 255)%Z)
              (text_items img)
    /\ (forall i y line y',
          text_tops img !! i = Some y ->
          drawn_lines img !! i = Some line ->
          text_tops img !! S i = Some y' ->
          y' = (y + (bbox_height (textbbox font line) + 6))%Z).
Proof.
  intros Hpil Hacc Hw.
  eexists (chosen_font possible_fonts), (rendering size quote), _.
  split; [apply select_font_spec|].
  split; [now apply rasterize_available|].
  split; [apply lookup_insert_eq|].
  split; [apply drawn_lines_rendering|].
  rewrite text_tops_items, drawn_lines_items. unfold rendering.
  match goal with
  | |- context [draw_lines ?f ?s ?ls ?y ?img] =>
      destruct (draw_lines_items f s ls y img)
        as (items & Hitems & Hmap & Hall & _ & _ & Hchain)
  end.
  match type of Hitems with
  | _ = ?a ++ items =>
      change a with (@nil (Z * Z * str * Font * rgb)) in Hitems
  end.
  cbn [app] in Hitems. rewrite Hitems, Hmap. split.
  - eapply List.Forall_impl; [|exact Hall].
    intros [[[[x y] t] f] c]. cbn. auto.
  - intros i y line y' H1 H2 H3. eapply Hchain; eauto.
Qed.


(** X10.  On an empty quote table the index is out of range:
    [pick_quote] raises [IndexError]; the raster renderer called without a
    quote raises it too, once the canvas and the panel are made, and saves
    nothing; [main] raises it after the output directory is made and
    before any file is written. *)
Theorem empty_table_raises_index_error (st : State)
    (svg_path png_path base ts : string) (size : Z) (r : nat) :
  g_QUOTES st = [] ->
  pick_quote r st = (Raised IndexError, st)
  /\ (g_PIL_AVAILABLE st = true ->
      new_raises "RGB" (size, size) = None ->
      rectangle_raises (size, size) [40; 40; size - 40; size - 40]%Z = None ->
      rasterize_svg_to_png svg_path png_path size None st
      = (Raised IndexError, st))
  /\ (can_mkdir st (out_dir_of base) = true ->
      main base r ts st = (Raised IndexError, add_dir (out_dir_of base) st)).
Proof.
  intros Hq.
  assert (Hpick : forall st0, g_QUOTES st0 = [] ->
                              pick_quote r st0 = (Raised IndexError, st0)).
  { intros st0 H0. unfold pick_quote, bind, get. now rewrite H0. }
  split; [now apply Hpick|]. split.
  - intros Hpil Hnew Hrect. rewrite rasterize_spec by exact Hpil.
    rewrite Hnew, Hrect. unfold text_to_draw. now rewrite Hq.
  - intros Hmk. unfold main. fold (out_dir_of base). unfold bind at 1.
    rewrite (mkdir_exist_ok_made _ _ Hmk). unfold bind at 1.
    now rewrite Hpick.
Qed.

(** X11.  A run of [main] with imaging available, in a directory where the
    output directory can be made and the two files written, and with a
    library that accepts the size 1080 and the png path, returns normally.
    For one quote of the table it leaves the vector document of that quote
    at the svg path and, at the png path with the same stem, an image of
    1080 by 1080 on which the wrapped lines of the same quote are drawn; no
    other file changes, the output directory exists and the two paths are
    reported, in this order. *)
Theorem main_with_imaging (st : State) (base ts : string) (r : nat) :
  g_QUOTES st = QUOTES ->
  g_PIL_AVAILABLE st = true ->
  can_mkdir st (out_dir_of base) = true ->
  writable (add_dir (out_dir_of base) st) (svg_path_of base ts) = true ->
  writable (add_dir (out_dir_of base) st) (png_path_of base ts) = true ->
  pillow_accepts 1080 (png_path_of base ts) = true ->
  exists quote img st',
    main base r ts st = (Returned tt, st')
    /\ In quote QUOTES
    /\ files st' !! svg_path_of base ts
       = Some (TextFile (make_svg_text_block quote 1080))
    /\ files st' !! png_path_of base ts = Some (ImageFile img)
    /\ im_size img = (1080, 1080)%Z
    /\ drawn_lines img = textwrap.wrap quote max_chars
    /\ (forall p, p <> svg_path_of base ts -> p <> png_path_of base ts ->
                  files st' !! p = files st !! p)
    /\ dirs st' = {[out_dir_of base]} ∪ dirs st
    /\ stdout st'
       = stdout st ++ [py "Saved SVG to: " ++ py (svg_path_of base ts);
                       py "Saved PNG to: " ++ py (png_path_of base ts)].
Proof.
  intros Hq Hpil Hmk Hsvg Hpng Hacc.
  destruct (main_run base r ts st Hq Hmk Hsvg (fun _ => conj Hacc Hpng))
    as (quote & Hlook & Hmain).
  rewrite Hpil in Hmain.
  eexists quote, (rendering 1080 quote), _.
  split; [exact Hmain|].
  split; [apply list_elem_of_In; eapply list_elem_of_lookup_2; exact Hlook|].
  cbn [files add_output set_file after_svg add_dir dirs stdout].
  split.
  { rewrite lookup_insert_ne by (intros E; symmetry in E;
                                 now apply svg_png_paths_differ in E).
    apply lookup_insert_eq. }
  split; [apply lookup_insert_eq|].
  split; [apply rendering_canvas|].
  split; [apply drawn_lines_rendering|].
  split.
  { intros p H1 H2. rewrite !lookup_insert_ne by congruence. reflexivity. }
  split; [reflexivity|].
  now rewrite <- app_assoc.
Qed.

(** X12.  A run of [main] without imaging, in a directory where the output
    directory can be made and the vector document written, returns normally
    too: it leaves the vector document of one quote of the table at the svg
    path, writes no other file (nothing at the png path), and reports the
    svg path and then that the rasterization was skipped. *)
Theorem main_without_imaging (st : State) (base ts : string) (r : nat) :
  g_QUOTES st = QUOTES ->
  g_PIL_AVAILABLE st = false ->
  can_mkdir st (out_dir_of base) = true ->
  writable (add_dir (out_dir_of base) st) (svg_path_of base ts) = true ->
  exists quote st',
    main base r ts st = (Returned tt, st')
    /\ In quote QUOTES
    /\ files st' !! svg_path_of base ts
       = Some (TextFile (make_svg_text_block quote 1080))
    /\ (forall p, p <> svg_path_of base ts -> files st' !! p = files st !! p)
    /\ files st' !! png_path_of base ts = files st !! png_path_of base ts
    /\ dirs st' = {[out_dir_of base]} ∪ dirs st
    /\ stdout st'
       = stdout st
         ++ [py "Saved SVG to: " ++ py (svg_path_of base ts);
             py "Pillow not available or rasterization skipped. PNG not created."].
Proof.
  intros Hq Hpil Hmk Hsvg.
  assert (Hpng : g_PIL_AVAILABLE st = true ->
                 pillow_accepts 1080 (png_path_of base ts) = true
                 /\ writable (add_dir (out_dir_of base) st)
                      (png_path_of base ts) = true)
    by (rewrite Hpil; discriminate).
  destruct (main_run base r ts st Hq Hmk Hsvg Hpng)
    as (quote & Hlook & Hmain).
  rewrite Hpil in Hmain.
  eexists quote, _.
  split; [exact Hmain|].
  split; [apply list_elem_of_In; eapply list_elem_of_lookup_2; exact Hlook|].
  cbn [files add_output set_file after_svg add_dir dirs stdout].
  split; [apply lookup_insert_eq|].
  split; [intros p Hp; now apply lookup_insert_ne|].
  split.
  { apply lookup_insert_ne. apply svg_png_paths_differ. }
  split; [reflexivity|].
  now rewrite <- app_assoc.
Qed.

(** X13.  Two runs of [main] in the same directory at the same clock
    reading: the second overwrites what the first wrote.  The files and
    directories left are those the second run alone would have left. *)
Theorem main_same_timestamp_overwrites (st : State) (base ts : string)
    (r1 r2 : nat) :
  g_QUOTES st = QUOTES ->
  let once := snd (main base r2 ts st) in
  let twice := snd (main base r2 ts (snd (main base r1 ts st))) in
  files twice = files once /\ dirs twice = dirs once.
Proof.
  intros Hq once twice. subst once twice.
  destruct (quote_of_draw r1) as [q1 Hl1].
  destruct (quote_of_draw r2) as [q2 Hl2].
  destruct (main_leaves base r1 ts st q1 Hq Hl1) as (Hp1 & Hd1 & Hf1).
  destruct (main_leaves base r2 ts st q2 Hq Hl2) as (_ & Hd2 & Hf2).
  set (st1 := snd (main base r1 ts st)) in *.
  assert (Hq1 : g_QUOTES st1 = QUOTES).
  { subst st1. rewrite <- Hq. apply keeps_quotes_main. }
  destruct (main_leaves base r2 ts st1 q2 Hq1 Hl2) as (_ & Hd & Hf).
  rewrite Hd, Hf, Hd2, Hf2, Hp1. clear Hd Hf Hd2 Hf2.
  set (out := out_dir_of base) in *.
  set (svg := svg_path_of base ts) in *.
  set (png := png_path_of base ts) in *.
  destruct (can_mkdir st out) eqn:Hmk.
  - assert (Hin : out ∈ dirs st1).
    { rewrite Hd1. cbn [dirs add_dir]. apply elem_of_union. left.
      now apply elem_of_singleton. }
    rewrite (can_mkdir_present st1 out Hin).
    assert (Hds : dirs (add_dir out st1) = dirs (add_dir out st)).
    { cbn [dirs add_dir]. rewrite Hd1. cbn [dirs add_dir].
      now rewrite (assoc_L (∪)), (idemp_L (∪)). }
    rewrite !(writable_dirs (add_dir out st1) (add_dir out st)) by exact Hds.
    split; [|exact Hds].
    rewrite Hf1. cbn [andb].
    destruct (writable (add_dir out st) svg); [|reflexivity].
    destruct (g_PIL_AVAILABLE st
              && (pillow_accepts 1080 png && writable (add_dir out st) png)).
    + apply map_eq. intros p.
      destruct (decide (p = png)) as [->|Hp].
      * now rewrite !lookup_insert_eq.
      * rewrite !(lookup_insert_ne _ png) by congruence.
        destruct (decide (p = svg)) as [->|Hs].
        -- now rewrite !lookup_insert_eq.
        -- now rewrite !lookup_insert_ne by congruence.
    + apply insert_insert_eq.
  - cbn [andb] in Hf1.
    assert (Hmk1 : can_mkdir st1 out = false).
    { unfold can_mkdir in Hmk |- *. rewrite Hd1, Hf1. exact Hmk. }
    rewrite Hmk1. cbn [andb]. split; assumption.
Qed.

(** X14.  Every entry of the table can be picked, by a draw below 10, and
    the pick leaves the state as it was. *)
Theorem every_quote_can_be_picked (st : State) (quote : str) :
  g_QUOTES st = QUOTES ->
  In quote QUOTES ->
  exists r, r < 10 /\ pick_quote r st = (Returned quote, st).
Proof.
  intros Hq Hin. apply list_elem_of_In in Hin.
  apply list_elem_of_lookup in Hin as [i Hi].
  assert (Hlt : i < 10).
  { apply lookup_lt_Some in Hi. exact Hi. }
  exists i. split; [exact Hlt|].
  apply pick_quote_lookup; [exact Hq|].
  now rewrite Nat.mod_small by exact Hlt.
Qed.

(** X17.  When the output directory cannot be made, [main] raises at once
    and leaves everything as it was; in particular, when a regular file
    has the name of the output directory, it raises [FileExistsError]. *)
Theorem main_stops_without_output_directory (st : State) (base ts : string)
    (r : nat) :
  can_mkdir st (out_dir_of base) = false ->
  (exists e, main base r ts st = (Raised e, st))
  /\ (forall f, files st !! out_dir_of base = Some f ->
        main base r ts st = (Raised FileExistsError, st)).
Proof.
  intros Hmk. split.
  - unfold main. fold (out_dir_of base). unfold bind at 1.
    destruct (mkdir_exist_ok_refused _ _ Hmk) as [e ->]. eauto.
  - intros f Hf. unfold main. fold (out_dir_of base). unfold bind at 1.
    unfold can_mkdir in Hmk. apply orb_false_elim in Hmk as [Hd _].
    apply bool_decide_eq_false in Hd. unfold mkdir_exist_ok.
    destruct (decide (out_dir_of base ∈ dirs st)); [contradiction|].
    now rewrite Hf.
Qed.

(** X18.  When the vector document is written and the bitmap then fails,
    because the library refuses the size or the path or because the file
    cannot be written, [main] raises after the vector document is saved
    and reported: the document of one quote of the table stays at the svg
    path, and nothing is reported about the bitmap. *)
Theorem main_raster_failure_keeps_svg (st : State) (base ts : string)
    (r : nat) :
  g_QUOTES st = QUOTES ->
  g_PIL_AVAILABLE st = true ->
  can_mkdir st (out_dir_of base) = true ->
  writable (add_dir (out_dir_of base) st) (svg_path_of base ts) = true ->
  pillow_accepts 1080 (png_path_of base ts)
  && writable (add_dir (out_dir_of base) st) (png_path_of base ts) = false ->
  exists e quote st',
    main base r ts st = (Raised e, st')
    /\ In quote QUOTES
    /\ files st' !! svg_path_of base ts
       = Some (TextFile (make_svg_text_block quote 1080))
    /\ (forall p, p <> svg_path_of base ts -> files st' !! p = files st !! p)
    /\ stdout st'
       = stdout st ++ [py "Saved SVG to: " ++ py (svg_path_of base ts)].
Proof.
  intros Hq Hpil Hmk Hsvg Hpng.
  destruct (quote_of_draw r) as [quote Hl].
  destruct (main_outcome base r ts st quote Hq Hl) as (e1 & e2 & e3 & Hmain).
  rewrite Hmk, Hsvg, Hpil, Hpng in Hmain.
  exists e3, quote, (after_svg base ts quote st).
  split; [exact Hmain|].
  split; [apply list_elem_of_In; eapply list_elem_of_lookup_2; exact Hl|].
  cbn [files add_output set_file after_svg add_dir dirs stdout].
  split; [apply lookup_insert_eq|].
  split; [intros p Hp; now apply lookup_insert_ne|reflexivity].
Qed.

End FurtherResults.

(** ** Concrete runs for the further results *)

Lemma short_quote_is_one_line_witness :
  forallb tidy (py "Progress, not perfection.") = true
  /\ length (py "Progress, not perfection.") <= 32
  /\ last (py "Progress, not perfection.") = Some "."%char
  /\ isspace "."%char = false
  /\ textwrap.wrap (py "Progress, not perfection.") max_chars
     = [py "Progress, not perfection."]
  /\ make_svg_text_block (py "Progress, not perfection.") 1080
     = svg_head 1080 ++ py "Progress, not perfection." ++ svg_tail.
Proof.
  assert (H1 : forallb tidy (py "Progress, not perfection.") = true)
    by reflexivity.
  assert (H2 : length (py "Progress, not perfection.") <= 32)
    by (cbn; lia).
  assert (H3 : last (py "Progress, not perfection.") = Some "."%char)
    by reflexivity.
  assert (H4 : isspace "."%char = false) by reflexivity.
  repeat (split; [assumption|]).
  exact (short_quote_is_one_line (py "Progress, not perfection.") "."%char
           1080 H1 H2 H3 H4).
Defined.

Lemma wrapped_lines_hold_only_spaces_witness :
  In (py "Dream   big.")
     (textwrap.wrap (py "Dream" ++ [TAB] ++ py "big.") max_chars)
  /\ In SPACE (py "Dream   big.")
  /\ is_whitespace SPACE = true
  /\ SPACE = SPACE.
Proof.
  assert (H1 : In (py "Dream   big.")
                 (textwrap.wrap (py "Dream" ++ [TAB] ++ py "big.") max_chars))
    by (left; reflexivity).
  assert (H2 : In SPACE (py "Dream   big."))
    by (do 5 right; left; reflexivity).
  assert (H3 : is_whitespace SPACE = true) by reflexivity.
  repeat (split; [assumption|]).
  exact (wrapped_lines_hold_only_spaces (py "Dream" ++ [TAB] ++ py "big.")
           (py "Dream   big.") SPACE H1 H2 H3).
Defined.

Lemma blank_quote_draws_nothing_witness :
  forallb is_whitespace [SPACE; TAB; NEWLINE] = true
  /\ g_PIL_AVAILABLE (demo_disk true) = true
  /\ pillow_accepts (PIL := demo_imaging) 1080 "/srv/app/quote.png" = true
  /\ writable (demo_disk true) "/srv/app/quote.png" = true
  /\ textwrap.wrap [SPACE; TAB; NEWLINE] max_chars = []
  /\ make_svg_text_block [SPACE; TAB; NEWLINE] 1080
     = svg_head 1080 ++ svg_tail
  /\ exists img st',
       rasterize_svg_to_png "/srv/app/quote.svg" "/srv/app/quote.png" 1080
         (Some [SPACE; TAB; NEWLINE]) (demo_disk true)
       = (Returned true, st')
       /\ files st' !! "/srv/app/quote.png" = Some (ImageFile img)
       /\ im_ops img
          = [Rectangle [40; 40; 1080 - 40; 1080 - 40]%Z (11, 18, 32)%Z].
Proof.
  assert (H1 : forallb is_whitespace [SPACE; TAB; NEWLINE] = true)
    by reflexivity.
  assert (H2 : g_PIL_AVAILABLE (demo_disk true) = true) by reflexivity.
  assert (H3 : pillow_accepts (PIL := demo_imaging) 1080 "/srv/app/quote.png"
               = true) by (vm_compute; reflexivity).
  assert (H4 : writable (demo_disk true) "/srv/app/quote.png" = true)
    by (vm_compute; reflexivity).
  repeat (split; [assumption|]).
  exact (blank_quote_draws_nothing (demo_disk true) "/srv/app/quote.svg"
           "/srv/app/quote.png" 1080 1080 [SPACE; TAB; NEWLINE] H1 H2 H3 H4).
Defined.

Lemma raster_canvas_and_panel_witness :
  g_PIL_AVAILABLE (demo_disk true) = true
  /\ pillow_accepts (PIL := demo_imaging) 1080 "/srv/app/quote.png" = true
  /\ writable (demo_disk true) "/srv/app/quote.png" = true
  /\ exists img st' texts,
       rasterize_svg_to_png "/srv/app/quote.svg" "/srv/app/quote.png" 1080
         (Some (py "Your only limit is you.")) (demo_disk true)
       = (Returned true, st')
       /\ files st' !! "/srv/app/quote.png" = Some (ImageFile img)
       /\ im_mode img = "RGB"%string
       /\ im_size img = (1080, 1080)%Z
       /\ im_color img = (15, 23, 42)%Z
       /\ im_ops img
          = Rectangle [40; 40; 1080 - 40; 1080 - 40]%Z (11, 18, 32)%Z :: texts
       /\ forallb is_text texts = true
       /\ length texts
          = length (textwrap.wrap (py "Your only limit is you.") max_chars).
Proof.
  assert (H1 : g_PIL_AVAILABLE (demo_disk true) = true) by reflexivity.
  assert (H2 : pillow_accepts (PIL := demo_imaging) 1080 "/srv/app/quote.png"
               = true) by (vm_compute; reflexivity).
  assert (H3 : writable (demo_disk true) "/srv/app/quote.png" = true)
    by (vm_compute; reflexivity).
  repeat (split; [assumption|]).
  exact (raster_canvas_and_panel (demo_disk true) "/srv/app/quote.svg"
           "/srv/app/quote.png" 1080 (py "Your only limit is you.")
           H1 H2 H3).
Defined.

Lemma raster_lines_centered_and_stacked_witness :
  g_PIL_AVAILABLE (demo_disk true) = true
  /\ pillow_accepts (PIL := demo_imaging) 1080 "/srv/app/quote.png" = true
  /\ writable (demo_disk true) "/srv/app/quote.png" = true
  /\ exists img st',
       rasterize_svg_to_png "/srv/app/quote.svg" "/srv/app/quote.png" 1080
         (Some (join [SPACE] sixth_quote_words)) (demo_disk true)
       = (Returned true, st')
       /\ files st' !! "/srv/app/quote.png" = Some (ImageFile img)
       /\ text_items img
          = [(250, 489, py "Start where you are. Use what",
              "/Library/Fonts/Arial.ttf"%string, (255, 255, 255));
             (280, 543, py "you have. Do what you can.",
              "/Library/Fonts/Arial.ttf"%string, (255, 255, 255))]%Z.
Proof.
  assert (H1 : g_PIL_AVAILABLE (demo_disk true) = true) by reflexivity.
  assert (H2 : pillow_accepts (PIL := demo_imaging) 1080 "/srv/app/quote.png"
               = true) by (vm_compute; reflexivity).
  assert (H3 : writable (demo_disk true) "/srv/app/quote.png" = true)
    by (vm_compute; reflexivity).
  repeat (split; [assumption|]).
  destruct (raster_lines_centered_and_stacked (demo_disk true)
              "/srv/app/quote.svg" "/srv/app/quote.png" 1080
              (join [SPACE] sixth_quote_words) H1 H2 H3)
    as (font & img & st' & _ & Hrun & Hfile & _).
  exists img, st'. split; [exact Hrun|]. split; [exact Hfile|].
  rewrite (rasterize_available (PIL := demo_imaging) _ _ _ _ _ H1 H2 H3)
    in Hrun.
  assert (Hst : st' = set_file "/srv/app/quote.png"
                        (ImageFile (rendering 1080
                                      (join [SPACE] sixth_quote_words)))
                        (demo_disk true)) by congruence.
  rewrite Hst in Hfile. cbn [files set_file] in Hfile.
  rewrite lookup_insert_eq in Hfile.
  assert (Himg : img = rendering 1080 (join [SPACE] sixth_quote_words))
    by congruence.
  rewrite Himg. vm_compute. reflexivity.
Defined.


Lemma empty_table_raises_index_error_witness :
  let st : State (PIL := demo_imaging) :=
    {| g_PIL_AVAILABLE := true; g_QUOTES := [];
       dirs := {["/"%string; "/srv"%string; "/srv/app"%string]}; files := ∅;
       stdout := [] |} in
  g_QUOTES st = []
  /\ can_mkdir st (out_dir_of "/srv/app") = true
  /\ pick_quote 4 st = (Raised IndexError, st)
  /\ rasterize_svg_to_png "/srv/app/quote.svg" "/srv/app/quote.png" 1080
       None st
     = (Raised IndexError, st)
  /\ main "/srv/app" 4 "20260101-120000" st
     = (Raised IndexError, add_dir (out_dir_of "/srv/app") st).
Proof.
  intros st.
  assert (H1 : g_QUOTES st = []) by reflexivity.
  assert (H2 : can_mkdir st (out_dir_of "/srv/app") = true)
    by (vm_compute; reflexivity).
  repeat (split; [assumption|]).
  destruct (empty_table_raises_index_error st "/srv/app/quote.svg"
              "/srv/app/quote.png" "/srv/app" "20260101-120000" 1080 4 H1)
    as (Hpick & Hraster & Hmain).
  split; [exact Hpick|].
  split; [apply Hraster; reflexivity|exact (Hmain H2)].
Defined.

Lemma main_with_imaging_witness :
  let base := "/srv/app"%string in
  let ts := "20260101-120000"%string in
  g_QUOTES (demo_disk true) = QUOTES
  /\ g_PIL_AVAILABLE (demo_disk true) = true
  /\ can_mkdir (demo_disk true) (out_dir_of base) = true
  /\ writable (add_dir (out_dir_of base) (demo_disk true))
       (svg_path_of base ts) = true
  /\ writable (add_dir (out_dir_of base) (demo_disk true))
       (png_path_of base ts) = true
  /\ pillow_accepts (PIL := demo_imaging) 1080 (png_path_of base ts) = true
  /\ out_dir_of base = "/srv/app/outputs"%string
  /\ svg_path_of base ts = "/srv/app/outputs/quote-20260101-120000.svg"%string
  /\ png_path_of base ts = "/srv/app/outputs/quote-20260101-120000.png"%string
  /\ exists quote img st',
       main base 25 ts (demo_disk true) = (Returned tt, st')
       /\ In quote QUOTES
       /\ files st' !! svg_path_of base ts
          = Some (TextFile (make_svg_text_block quote 1080))
       /\ files st' !! png_path_of base ts = Some (ImageFile img)
       /\ im_size img = (1080, 1080)%Z
       /\ drawn_lines img = textwrap.wrap quote max_chars.
Proof.
  intros base ts.
  assert (H1 : g_QUOTES (demo_disk true) = QUOTES) by reflexivity.
  assert (H2 : g_PIL_AVAILABLE (demo_disk true) = true) by reflexivity.
  assert (H3 : can_mkdir (demo_disk true) (out_dir_of base) = true)
    by (vm_compute; reflexivity).
  assert (H4 : writable (add_dir (out_dir_of base) (demo_disk true))
                 (svg_path_of base ts) = true) by (vm_compute; reflexivity).
  assert (H5 : writable (add_dir (out_dir_of base) (demo_disk true))
                 (png_path_of base ts) = true) by (vm_compute; reflexivity).
  assert (H6 : pillow_accepts (PIL := demo_imaging) 1080 (png_path_of base ts)
               = true) by (vm_compute; reflexivity).
  repeat (split; [assumption|]).
  split; [vm_compute; reflexivity|]. split; [vm_compute; reflexivity|].
  split; [vm_compute; reflexivity|].
  destruct (main_with_imaging (demo_disk true) base ts 25 H1 H2 H3 H4 H5 H6)
    as (quote & img & st' & R1 & R2 & R3 & R4 & R5 & R6 & _).
  exists quote, img, st'. repeat (split; [assumption|]). assumption.
Defined.

Lemma main_without_imaging_witness :
  let base := "/srv/app"%string in
  let ts := "20260101-120000"%string in
  g_QUOTES (demo_disk false) = QUOTES
  /\ g_PIL_AVAILABLE (demo_disk false) = false
  /\ can_mkdir (demo_disk false) (out_dir_of base) = true
  /\ writable (add_dir (out_dir_of base) (demo_disk false))
       (svg_path_of base ts) = true
  /\ exists quote st',
       main base 25 ts (demo_disk false) = (Returned tt, st')
       /\ In quote QUOTES
       /\ files st' !! svg_path_of base ts
          = Some (TextFile (make_svg_text_block quote 1080))
       /\ files st' !! png_path_of base ts
          = files (demo_disk false) !! png_path_of base ts.
Proof.
  intros base ts.
  assert (H1 : g_QUOTES (demo_disk false) = QUOTES) by reflexivity.
  assert (H2 : g_PIL_AVAILABLE (demo_disk false) = false) by reflexivity.
  assert (H3 : can_mkdir (demo_disk false) (out_dir_of base) = true)
    by (vm_compute; reflexivity).
  assert (H4 : writable (add_dir (out_dir_of base) (demo_disk false))
                 (svg_path_of base ts) = true) by (vm_compute; reflexivity).
  repeat (split; [assumption|]).
  destruct (main_without_imaging (demo_disk false) base ts 25 H1 H2 H3 H4)
    as (quote & st' & R1 & R2 & R3 & _ & R5 & _).
  exists quote, st'. repeat (split; [assumption|]). assumption.
Defined.

Lemma main_same_timestamp_overwrites_witness :
  g_QUOTES (demo_disk true) = QUOTES
  /\ (let once :=
        snd (main "/srv/app" 7 "20260101-120000" (demo_disk true)) in
      let twice :=
        snd (main "/srv/app" 7 "20260101-120000"
               (snd (main "/srv/app" 3 "20260101-120000" (demo_disk true))))
      in
      files twice = files once /\ dirs twice = dirs once).
Proof.
  split; [reflexivity|].
  exact (main_same_timestamp_overwrites (demo_disk true) "/srv/app"
           "20260101-120000" 3 7 eq_refl).
Defined.

Lemma every_quote_can_be_picked_witness :
  g_QUOTES (demo_disk true) = QUOTES
  /\ In (py "Progress, not perfection.") QUOTES
  /\ exists r, r < 10
               /\ pick_quote r (demo_disk true)
                  = (Returned (py "Progress, not perfection."),
                     demo_disk true).
Proof.
  assert (H1 : g_QUOTES (demo_disk true) = QUOTES) by reflexivity.
  assert (H2 : In (py "Progress, not perfection.") QUOTES)
    by (do 4 right; left; reflexivity).
  repeat (split; [assumption|]).
  exact (every_quote_can_be_picked (demo_disk true)
           (py "Progress, not perfection.") H1 H2).
Defined.

Lemma main_stops_without_output_directory_witness :
  let st : State (PIL := demo_imaging) :=
    module_init true {["/"%string; "/srv"%string; "/srv/app"%string]}
      {["/srv/app/outputs"%string := TextFile (py "notes")]} in
  can_mkdir st (out_dir_of "/srv/app") = false
  /\ files st !! out_dir_of "/srv/app" = Some (TextFile (py "notes"))
  /\ main "/srv/app" 25 "20260101-120000" st = (Raised FileExistsError, st).
Proof.
  intros st.
  assert (H1 : can_mkdir st (out_dir_of "/srv/app") = false)
    by (vm_compute; reflexivity).
  assert (H2 : files st !! out_dir_of "/srv/app"
               = Some (TextFile (py "notes"))) by (vm_compute; reflexivity).
  repeat (split; [assumption|]).
  exact (proj2 (main_stops_without_output_directory st "/srv/app"
                  "20260101-120000" 25 H1) _ H2).
Defined.

Lemma main_raster_failure_keeps_svg_witness :
  let base := "/srv/app"%string in
  let ts := "20260101-120000"%string in
  let st : State (PIL := demo_imaging) :=
    module_init true
      {["/"%string; "/srv"%string; "/srv/app"%string;
        "/srv/app/outputs/quote-20260101-120000.png"%string]} ∅ in
  g_QUOTES st = QUOTES
  /\ g_PIL_AVAILABLE st = true
  /\ can_mkdir st (out_dir_of base) = true
  /\ writable (add_dir (out_dir_of base) st) (svg_path_of base ts) = true
  /\ pillow_accepts (PIL := demo_imaging) 1080 (png_path_of base ts)
     && writable (add_dir (out_dir_of base) st) (png_path_of base ts) = false
  /\ exists e quote st',
       main base 25 ts st = (Raised e, st')
       /\ In quote QUOTES
       /\ files st' !! svg_path_of base ts
          = Some (TextFile (make_svg_text_block quote 1080))
       /\ stdout st'
          = stdout st ++ [py "Saved SVG to: " ++ py (svg_path_of base ts)].
Proof.
  intros base ts st.
  assert (H1 : g_QUOTES st = QUOTES) by reflexivity.
  assert (H2 : g_PIL_AVAILABLE st = true) by reflexivity.
  assert (H3 : can_mkdir st (out_dir_of base) = true)
    by (vm_compute; reflexivity).
  assert (H4 : writable (add_dir (out_dir_of base) st) (svg_path_of base ts)
               = true) by (vm_compute; reflexivity).
  assert (H5 : pillow_accepts (PIL := demo_imaging) 1080 (png_path_of base ts)
               && writable (add_dir (out_dir_of base) st)
                    (png_path_of base ts) = false)
    by (vm_compute; reflexivity).
  repeat (split; [assumption|]).
  destruct (main_raster_failure_keeps_svg st base ts 25 H1 H2 H3 H4 H5)
    as (e & quote & st' & R1 & R2 & R3 & _ & R5).
  exists e, quote, st'. repeat (split; [assumption|]). assumption.
Defined.
